(** * LMT: playing sheet music on an organ, converting it, fetching it

    A shallow embedding of the four scripts of the repository

    - [play_sheet_on_organ.py]          (module [Organ]),
    - [play_sheet_on_virtual_organ.py]  (module [VirtualOrgan]),
    - [convert_musicxml_to_midi.py]     (module [Converter]),
    - [download_lutheran_hymn_sheet_music.py] (module [Scraper]),

    followed by the properties of the playback, conversion and download
    loops.

    Conventions of the embedding.

    - Python numbers that measure time (quarter lengths, BPM, seconds,
      milliseconds) are exact rationals [Q]; music21 itself hands out
      quarter lengths as fractions or floats.  Equality of times is [Qeq].
    - MIDI data (pitch, velocity, channel, program) are integers [Z].
    - A Python exception is a value of [exn]; code that may raise returns a
      [result]; code that also acts on the outside world is a function from
      the state of that world to a [result] and the new state.
    - [time.sleep] and the backend calls take no time of their own: the
      wall clock only moves by what is slept (and, for the scraper, by the
      latency of a request). *)

From Stdlib Require Import ZArith QArith Qabs List String Ascii Bool Lia Lqa.
From Stdlib Require Import Sorted Permutation.
Import ListNotations.

Set Implicit Arguments.

(* ================================================================== *)
(** * Python: exceptions and the state-and-exception monad             *)
(* ================================================================== *)

Module Py.

Inductive exn : Type :=
| ValueError
| ZeroDivisionError
| IndexError
| AttributeError
| EOFError
| RuntimeError
| HTTPError
| ConnectionError
| BackendError
| SystemExit (code : Z).

Inductive result (A : Type) : Type :=
| Ok (a : A)
| Raise (e : exn).
Arguments Ok {A} a.
Arguments Raise {A} e.

(** A computation over a world [W]: the world is kept when it raises. *)
Definition M (W A : Type) : Type := W -> result A * W.

Definition ret {W A} (a : A) : M W A := fun w => (Ok a, w).

Definition raise {W A} (e : exn) : M W A := fun w => (Raise e, w).

Definition bind {W A B} (m : M W A) (k : A -> M W B) : M W B :=
  fun w => match m w with
           | (Ok a, w') => k a w'
           | (Raise e, w') => (Raise e, w')
           end.

Definition lift {W A} (r : result A) : M W A := fun w => (r, w).

(** [for x in xs: body(x)] *)
Fixpoint for_each {W A} (xs : list A) (body : A -> M W unit) : M W unit :=
  match xs with
  | [] => ret tt
  | x :: xs' => bind (body x) (fun _ => for_each xs' body)
  end.

(** [a < b] on numbers. *)
Definition Qlt_bool (a b : Q) : bool := negb (Qle_bool b a).

(** [a / b] on numbers. *)
Definition truediv (a b : Q) : result Q :=
  if Qeq_bool b 0 then Raise ZeroDivisionError else Ok (a / b)%Q.

End Py.

Import Py.

Declare Scope py_scope.
Delimit Scope py_scope with py.
Notation "x <- c ;; k" := (bind c (fun x => k))
  (at level 61, c at next level, right associativity) : py_scope.
Notation "c ;; k" := (bind c (fun _ => k))
  (at level 61, right associativity) : py_scope.
Open Scope py_scope.

(* ================================================================== *)
(** * The score, as music21 hands it to the scripts                    *)
(* ================================================================== *)

Module Music.

(** An element of the flattened stream.  [velocity] is
    [el.volume.velocity], which is [None] or an integer. *)
Inductive element : Type :=
| Note (pitch : Z) (velocity : option Z) (quarterLength : Q)
| Chord (pitches : list Z) (velocity : option Z) (quarterLength : Q)
| Rest (quarterLength : Q)
| Other (quarterLength : Q).   (* clefs, signatures, tempo marks, ... *)

Definition quarterLength (el : element) : Q :=
  match el with
  | Note _ _ d | Chord _ _ d | Rest d | Other d => d
  end.

(** The first tempo marking is read as [boundaries[0][2].number] by the
    hardware script and as [boundaries[0].number] by the virtual one;
    both are the [number] of the first entry. *)
Record MetronomeMark : Type := { number : Q }.

Record score : Type := {
  metronomeMarkBoundaries : list MetronomeMark;
  flat : list element
}.

Definition is_note (el : element) : bool :=
  match el with Note _ _ _ => true | _ => false end.
Definition is_chord (el : element) : bool :=
  match el with Chord _ _ _ => true | _ => false end.
Definition is_rest (el : element) : bool :=
  match el with Rest _ => true | _ => false end.

(** [stream.notesAndRests] *)
Definition notesAndRests (s : list element) : list element :=
  filter (fun el => is_note el || is_chord el || is_rest el) s.

(** [stream.getElementsByClass(['Note', 'Chord'])] *)
Definition getElementsByClass_Note_Chord (s : list element) : list element :=
  filter (fun el => is_note el || is_chord el) s.

End Music.

Import Music.

(* ================================================================== *)
(** * The sound backend and the wall clock                             *)
(* ================================================================== *)

Module Backend.

Inductive call : Type :=
| NoteOn (channel pitch velocity : Z)
| NoteOff (channel pitch : Z).

(** The world of a playback session.

    - [now]: seconds of wall time since the session began;
    - [calls]: the backend calls issued so far, each with the wall time
      at which it was issued (a call that raises is issued all the same);
    - [sleeps]: the arguments of the [time.sleep] calls that returned;
    - [current_offset]: the module variable of that name of the virtual
      organ script, its running clock;
    - [started]: every element handed to [play_element], with the
      [time_offset] it was given (a record of the run, read by no code). *)
Record world : Type := mkWorld {
  now : Q;
  calls : list (Q * call);
  sleeps : list Q;
  current_offset : Q;
  started : list (element * Q)
}.

Definition initial : world :=
  {| now := 0; calls := []; sleeps := []; current_offset := 0; started := [] |}.

Section WithBackend.

(** Which backend calls raise: [backend_fails n] says that the call
    issued after [n] earlier ones does. *)
Variable backend_fails : nat -> bool.

(** [time.sleep(t)]: raises [ValueError] on a negative length. *)
Definition sleep (t : Q) : M world unit :=
  fun w =>
    if Qle_bool 0 t
    then (Ok tt, {| now := (now w + t)%Q; calls := calls w;
                    sleeps := sleeps w ++ [t];
                    current_offset := current_offset w;
                    started := started w |})
    else (Raise ValueError, w).

Definition issue (c : call) : M world unit :=
  fun w =>
    let w' := {| now := now w; calls := calls w ++ [(now w, c)];
                 sleeps := sleeps w;
                 current_offset := current_offset w;
                 started := started w |} in
    if backend_fails (List.length (calls w))
    then (Raise BackendError, w')
    else (Ok tt, w').

Definition noteon (chan pitch vel : Z) : M world unit :=
  issue (NoteOn chan pitch vel).

Definition noteoff (chan pitch : Z) : M world unit :=
  issue (NoteOff chan pitch).

End WithBackend.

Definition is_on (c : call) : bool :=
  match c with NoteOn _ _ _ => true | NoteOff _ _ => false end.
Definition is_off (c : call) : bool := negb (is_on c).

(** The note-on and the note-off calls of a log. *)
Definition ons (l : list (Q * call)) : nat :=
  List.length (filter (fun tc => is_on (snd tc)) l).
Definition offs (l : list (Q * call)) : nat :=
  List.length (filter (fun tc => is_off (snd tc)) l).

Definition note_ons (w : world) : nat := ons (calls w).
Definition note_offs (w : world) : nat := offs (calls w).

(** The note-on and the note-off calls of a log for one pitch. *)
Definition ons_of (p : Z) (l : list (Q * call)) : nat :=
  List.length (filter (fun tc => match snd tc with
                                 | NoteOn _ q _ => (p =? q)%Z
                                 | NoteOff _ _ => false
                                 end) l).
Definition offs_of (p : Z) (l : list (Q * call)) : nat :=
  List.length (filter (fun tc => match snd tc with
                                 | NoteOn _ _ _ => false
                                 | NoteOff _ q => (p =? q)%Z
                                 end) l).

(** The calls of a run extend the log; [l] is what the run added. *)
Definition adds (w w' : world) (l : list (Q * call)) : Prop :=
  calls w' = calls w ++ l.

(** Runs only ever add to the log of calls. *)
Definition extends (w w' : world) : Prop := exists l, adds w w' l.

(** A run that added as many note-offs as note-ons. *)
Definition balanced (w w' : world) : Prop :=
  exists l, adds w w' l /\ ons l = offs l.

(** Two logs of timed calls agree: same calls, equal times. *)
Definition same_calls (l1 l2 : list (Q * call)) : Prop :=
  Forall2 (fun a b => fst a == fst b /\ snd a = snd b) l1 l2.

(** The total of a list of times. *)
Definition total (ts : list Q) : Q := fold_right Qplus 0 ts.

End Backend.

Import Backend.

(* ================================================================== *)
(** * play_sheet_on_virtual_organ.py                                   *)
(* ================================================================== *)

Module VirtualOrgan.

Section WithBackend.

Variable backend_fails : nat -> bool.

(** Lines 49-54: the tempo; [TEMPO_BPM] is the configured override. *)
Definition resolve_bpm (TEMPO_BPM : option Q) (sc : score) : Q :=
  match TEMPO_BPM with
  | Some b => b
  | None =>
      match metronomeMarkBoundaries sc with
      | m :: _ => number m
      | [] => 120
      end
  end.

(** Line 104: [seconds_per_quarter = 60.0 / bpm]. *)
Definition seconds_per_quarter (TEMPO_BPM : option Q) (sc : score) : result Q :=
  truediv 60 (resolve_bpm TEMPO_BPM sc).

Definition record_start (el : element) (time_offset : Q) : M world unit :=
  fun w => (Ok tt, {| now := now w; calls := calls w; sleeps := sleeps w;
                      current_offset := current_offset w;
                      started := started w ++ [(el, time_offset)] |}).

(** Lines 62-90. *)
Definition play_element (bpm : Q) (el : element) (time_offset : Q) : M world unit :=
  record_start el time_offset ;;
  sleep time_offset ;;
  match el with
  | Note pitch _ duration =>
      noteon backend_fails 0 pitch 127 ;;
      spq <- lift (truediv 60 bpm) ;;
      sleep (duration * spq) ;;
      noteoff backend_fails 0 pitch
  | Chord pitches _ dur =>
      for_each pitches (fun p => noteon backend_fails 0 p 127) ;;
      spq <- lift (truediv 60 bpm) ;;
      sleep (dur * spq) ;;
      for_each pitches (fun p => noteoff backend_fails 0 p)
  | _ => ret tt
  end.

Definition get_current_offset : M world Q :=
  fun w => (Ok (current_offset w), w).

Definition set_current_offset (c : Q) : M world unit :=
  fun w => (Ok tt, {| now := now w; calls := calls w; sleeps := sleeps w;
                      current_offset := c; started := started w |}).

(** The body of the loop of lines 109-116. *)
Definition stream_step (bpm spq : Q) (el : element) : M world unit :=
  let duration_q := quarterLength el in
  off <- get_current_offset ;;
  play_element bpm el off ;;
  off' <- get_current_offset ;;
  set_current_offset (off' + duration_q * spq).

Definition stream_loop (bpm spq : Q) (els : list element) : M world unit :=
  for_each els (stream_step bpm spq).

(** Lines 49-116, from the tempo on: the synthesizer is running and the
    score is parsed. *)
Definition playback (TEMPO_BPM : option Q) (sc : score) : M world unit :=
  let bpm := resolve_bpm TEMPO_BPM sc in
  set_current_offset 0 ;;
  spq <- lift (seconds_per_quarter TEMPO_BPM sc) ;;
  stream_loop bpm spq (getElementsByClass_Note_Chord (flat sc)).

End WithBackend.

End VirtualOrgan.

(* ================================================================== *)
(** * play_sheet_on_organ.py                                           *)
(* ================================================================== *)

Module Organ.

(** Lines 16-20, the configuration block. *)
Record config : Type := {
  ORGAN_CHANNEL : Z;
  ORGAN_KEY_OFFSET : Z;
  TIME_RESOLUTION : Q
}.

Definition default_config : config :=
  {| ORGAN_CHANNEL := 1; ORGAN_KEY_OFFSET := 0; TIME_RESOLUTION := 5 # 100 |}.

Inductive msg_type : Type := note_on | note_off.

Record Message : Type := {
  type : msg_type;
  note : Z;
  velocity : Z;
  channel : Z;
  time : Q
}.

(** [mido.Message(type, note=, velocity=, channel=, time=)].  The
    constructor of the mido library checks its data: [note] and
    [velocity] are data bytes (0..127) and [channel] is 0..15, with
    [ValueError] otherwise; [time] only has to be a number. *)
Definition data_byte (v : Z) : bool := (0 <=? v)%Z && (v <=? 127)%Z.
Definition channel_ok (c : Z) : bool := (0 <=? c)%Z && (c <=? 15)%Z.

Definition mido_Message (ty : msg_type) (n v c : Z) (t : Q) : result Message :=
  if data_byte n && data_byte v && channel_ok c
  then Ok {| type := ty; note := n; velocity := v; channel := c; time := t |}
  else Raise ValueError.

(** [sorted(xs, key=lambda p: p.midi)], a stable sort. *)
Fixpoint insert_sorted (x : Z) (xs : list Z) : list Z :=
  match xs with
  | [] => [x]
  | y :: ys => if (x <? y)%Z then x :: y :: ys else y :: insert_sorted x ys
  end.

Fixpoint sorted (xs : list Z) : list Z :=
  match xs with
  | [] => []
  | x :: xs' => insert_sorted x (sorted xs')
  end.

(** [xs[-1]] *)
Definition last_item (xs : list Z) : result Z :=
  match rev xs with
  | [] => Raise IndexError
  | x :: _ => Ok x
  end.

(** [int(v) if v else 64] on [volume.velocity]. *)
Definition compute_velocity (v : option Z) : Z :=
  match v with
  | Some n => if (n =? 0)%Z then 64 else n
  | None => 64
  end.

(** Lines 54-91. *)
Definition note_to_midi_events (cfg : config) (m21_note : element) (start_tick : Q)
  : result (list Message * Q) :=
  let chan := (ORGAN_CHANNEL cfg - 1)%Z in
  let build (midi_pitch0 : Z) (vel : option Z) (duration : Q) :=
    let midi_pitch := (midi_pitch0 + ORGAN_KEY_OFFSET cfg)%Z in
    let velocity := compute_velocity vel in
    match mido_Message note_on midi_pitch velocity chan start_tick with
    | Raise e => Raise e
    | Ok on =>
        match mido_Message note_off midi_pitch 0 chan (duration * 1000)%Q with
        | Raise e => Raise e
        | Ok off => Ok ([on; off], duration)
        end
    end in
  match m21_note with
  | Rest duration => Ok ([], duration)
  | Chord pitches vel duration =>
      match last_item (sorted pitches) with
      | Raise e => Raise e
      | Ok midi_pitch => build midi_pitch vel duration
      end
  | Note pitch vel duration => build pitch vel duration
  | Other _ => Raise AttributeError
  end.

(** Lines 97-103: [ms_per_quarter], computed and then used nowhere. *)
Definition ms_per_quarter (sc : score) : result Q :=
  match metronomeMarkBoundaries sc with
  | [] => Ok (60000 / 120)%Q
  | m :: _ => truediv 60000 (number m)
  end.

Section WithBackend.

Variable backend_fails : nat -> bool.

(** [midi_out.send(msg)] *)
Definition send (msg : Message) : M world unit :=
  match type msg with
  | note_on => noteon backend_fails (channel msg) (note msg) (velocity msg)
  | note_off => noteoff backend_fails (channel msg) (note msg)
  end.

(** The body of the loop of lines 107-121. *)
Definition playback_step (cfg : config) (m21_obj : element) : M world unit :=
  r <- lift (note_to_midi_events cfg m21_obj 0) ;;
  let '(events, dur) := r in
  match events with
  | [] => sleep (dur * TIME_RESOLUTION cfg)
  | _ => for_each events (fun msg => send msg ;; sleep (time msg / 1000))
  end.

(** Lines 97-121: the port is open and the score is parsed. *)
Definition playback (cfg : config) (sc : score) : M world unit :=
  _ <- lift (ms_per_quarter sc) ;;
  for_each (notesAndRests (flat sc)) (playback_step cfg).

End WithBackend.

End Organ.

(* ================================================================== *)
(** * Python strings (ASCII)                                           *)
(* ================================================================== *)

Module Str.

Definition is_upper (c : ascii) : bool :=
  let n := nat_of_ascii c in (65 <=? n)%nat && (n <=? 90)%nat.
Definition is_lower (c : ascii) : bool :=
  let n := nat_of_ascii c in (97 <=? n)%nat && (n <=? 122)%nat.
Definition is_digit (c : ascii) : bool :=
  let n := nat_of_ascii c in (48 <=? n)%nat && (n <=? 57)%nat.
Definition is_space (c : ascii) : bool :=
  let n := nat_of_ascii c in ((9 <=? n)%nat && (n <=? 13)%nat) || (n =? 32)%nat.

Definition lower_char (c : ascii) : ascii :=
  if is_upper c then ascii_of_nat (nat_of_ascii c + 32) else c.

(** [s.lower()] *)
Fixpoint lower (s : string) : string :=
  match s with
  | EmptyString => EmptyString
  | String c s' => String (lower_char c) (lower s')
  end.

(** [s.replace(" ", "_")] *)
Fixpoint replace_space (s : string) : string :=
  match s with
  | EmptyString => EmptyString
  | String c s' =>
      String (if Ascii.eqb c " " then "_"%char else c) (replace_space s')
  end.

(** [s.endswith(suffix)] *)
Definition endswith (s suffix : string) : bool :=
  let n := String.length s in
  let k := String.length suffix in
  (k <=? n)%nat && String.eqb (substring (n - k) k s) suffix.

(** [s.isalnum()] *)
Fixpoint all_alnum (s : string) : bool :=
  match s with
  | EmptyString => true
  | String c s' => (is_upper c || is_lower c || is_digit c) && all_alnum s'
  end.
Definition isalnum (s : string) : bool :=
  negb (String.eqb s "") && all_alnum s.

(** [s.split()]: the words between runs of white space.  [cur] is the
    word being read, reversed. *)
Definition flush (cur : list ascii) (acc : list string) : list string :=
  match cur with
  | [] => acc
  | _ => string_of_list_ascii (rev cur) :: acc
  end.

Fixpoint split_from (s : string) (cur : list ascii) : list string :=
  match s with
  | EmptyString => flush cur []
  | String c s' =>
      if is_space c then flush cur (split_from s' [])
      else split_from s' (c :: cur)
  end.
Definition split (s : string) : list string := split_from s [].

(** [sep.join(parts)] *)
Fixpoint join (sep : string) (parts : list string) : string :=
  match parts with
  | [] => ""
  | [p] => p
  | p :: ps => p ++ sep ++ join sep ps
  end.

End Str.

(* ================================================================== *)
(** * convert_musicxml_to_midi.py                                      *)
(* ================================================================== *)

Module Converter.

Definition path : Type := string.

Inductive kind : Type := RegularFile | Directory.

Inductive line : Type :=
| Prompt (p : path)      (* "... already exists. Overwrite? [y/N] " *)
| Aborted
| Success (p : path)
| Failed (e : exn).

(** The world of one run of the tool.

    - [files]: what exists on disk;
    - [stdin]: the lines still to be read from standard input, without
      their newline; [input()] on an empty [stdin] raises [EOFError];
    - [written]: the paths [score.write] was called on, in order;
    - [stdout]: what was printed. *)
Record world : Type := {
  files : list (path * kind);
  stdin : list string;
  written : list path;
  stdout : list line
}.

Record arguments : Type := {
  input_xml : option path;
  output_midi : option path;
  program : option Z
}.

Definition lookup (p : path) (w : world) : option kind :=
  match find (fun e => String.eqb (fst e) p) (files w) with
  | Some e => Some (snd e)
  | None => None
  end.

(** [p.is_file()] *)
Definition is_file (p : path) : M world bool :=
  fun w => (Ok match lookup p w with Some RegularFile => true | _ => false end, w).

(** [p.exists()] *)
Definition exists_ (p : path) : M world bool :=
  fun w => (Ok match lookup p w with Some _ => true | None => false end, w).

Definition print (l : line) : M world unit :=
  fun w => (Ok tt, {| files := files w; stdin := stdin w;
                      written := written w; stdout := stdout w ++ [l] |}).

(** [input(prompt)] *)
Definition input (p : path) : M world string :=
  fun w =>
    let out := stdout w ++ [Prompt p] in
    match stdin w with
    | [] => (Raise EOFError, {| files := files w; stdin := [];
                                written := written w; stdout := out |})
    | l :: rest => (Ok l, {| files := files w; stdin := rest;
                             written := written w; stdout := out |})
    end.

(** [try: body  except Exception as exc: handler(exc)]; [SystemExit] is
    no [Exception]. *)
Definition try_except {A} (body : M world A) (handler : exn -> M world A) : M world A :=
  fun w =>
    match body w with
    | (Raise (SystemExit c), w') => (Raise (SystemExit c), w')
    | (Raise e, w') => handler e w'
    | ok => ok
    end.

Section WithMusic21.

(** music21, from outside: whether [converter.parse] reads a file, and
    whether [score.write] fails on a path. *)
Variable parses : path -> bool.
Variable write_fails : path -> bool.

(** [score.write('midi', p)]: the file is opened for writing whether or
    not the call goes on to raise. *)
Definition score_write (p : path) : M world unit :=
  fun w =>
    let w' := {| files := (p, RegularFile) :: files w; stdin := stdin w;
                 written := written w ++ [p]; stdout := stdout w |} in
    if write_fails p then (Raise RuntimeError, w') else (Ok tt, w').

(** Lines 24-58. *)
Definition musicxml_to_midi (xml_path midi_path : path) (prog : option Z)
  : M world unit :=
  (if parses xml_path then ret tt else raise RuntimeError) ;;
  match prog with
  | Some n =>
      if (0 <=? n)%Z && (n <=? 127)%Z then ret tt else raise ValueError
  | None => ret tt
  end ;;
  try_except (score_write midi_path) (fun _ => raise RuntimeError).

(** Lines 63-103. *)
Definition main (args : arguments) : M world unit :=
  match input_xml args with
  | None => raise AttributeError
  | Some inp =>
      there <- is_file inp ;;
      (if there then ret tt else raise (SystemExit 2)) ;;
      match output_midi args with
      | None => raise AttributeError
      | Some out =>
          taken <- exists_ out ;;
          (if taken
           then
             confirm <- input out ;;
             if String.eqb (Str.lower confirm) "y" then ret tt
             else print Aborted ;; raise (SystemExit 0)
           else ret tt) ;;
          try_except
            (musicxml_to_midi inp out (program args) ;; print (Success out))
            (fun exc => print (Failed exc) ;; raise (SystemExit 1))
      end
  end.

End WithMusic21.

End Converter.

(* ================================================================== *)
(** * download_lutheran_hymn_sheet_music.py                            *)
(* ================================================================== *)

Module Scraper.

Definition HYMNS : list string :=
  [ "Annie Laurie"; "Rock Of Ages"; "The Old Rugged Cross";
    "Amazing Grace"; "Blessed Assurance"; "Crown Him with Many Crowns" ]%string.

Definition OUT_DIR : string := "lutheran_hymn_scores".

Definition MIN_DELAY : Q := 15 # 10.

(** What the server answers to a GET: a page, given by the [href]s of
    its [<a>] tags in document order; an error status; or no answer. *)
Inductive answer : Type :=
| Page (hrefs : list string)
| ErrorStatus
| Unreachable.

Inductive event : Type :=
| Warning (hymn : string)
| Downloaded (dest : string)
| DownloadFailed (hymn : string).

(** The world of a run.

    - [clock]: what [time.time()] returns;
    - [requests]: the GETs sent so far, each with the time it was sent;
    - [saved]: the files written;
    - [journal]: what was logged at warning level or above, and the
      downloads. *)
Record world : Type := {
  clock : Q;
  requests : list (Q * string);
  saved : list string;
  journal : list event
}.

Definition time_time : M world Q := fun w => (Ok (clock w), w).

(** [time.sleep(t)] *)
Definition time_sleep (t : Q) : M world unit :=
  fun w =>
    if Qle_bool 0 t
    then (Ok tt, {| clock := (clock w + t)%Q; requests := requests w;
                    saved := saved w; journal := journal w |})
    else (Raise ValueError, w).

Definition log (e : event) : M world unit :=
  fun w => (Ok tt, {| clock := clock w; requests := requests w;
                      saved := saved w; journal := journal w ++ [e] |}).

Definition write_file (dest : string) : M world unit :=
  fun w => (Ok tt, {| clock := clock w; requests := requests w;
                      saved := saved w ++ [dest]; journal := journal w |}).

(** Lines 64-68. *)
Definition safe_sleep (previous_time : Q) : M world unit :=
  t <- time_time ;;
  let elapsed := (t - previous_time)%Q in
  if Qlt_bool elapsed MIN_DELAY then time_sleep (MIN_DELAY - elapsed)
  else ret tt.

(** Lines 71-75. *)
Definition build_score_page_url (title : string) : string :=
  ("https://imslp.org/wiki/" ++ Str.replace_space title)%string.

(** [try: body  except requests.HTTPError: handler] *)
Definition except_HTTPError {A} (body : M world A) (handler : M world A) : M world A :=
  fun w =>
    match body w with
    | (Raise HTTPError, w') => handler w'
    | other => other
    end.

Section WithServer.

(** The server and the network: what a GET of a URL answers and how
    long the answer takes; and [urllib.parse.urljoin]. *)
Variable server : string -> answer.
Variable latency : string -> Q.
Variable urljoin : string -> string -> string.

(** [session.get(url, headers=HEADERS)] *)
Definition session_get (url : string) : M world answer :=
  fun w =>
    let sent := requests w ++ [(clock w, url)] in
    let w' := {| clock := (clock w + latency url)%Q; requests := sent;
                 saved := saved w; journal := journal w |} in
    match server url with
    | Unreachable => (Raise ConnectionError, w')
    | a => (Ok a, w')
    end.

(** [response.raise_for_status()] *)
Definition raise_for_status (a : answer) : M world (list string) :=
  match a with
  | Page hrefs => ret hrefs
  | _ => raise HTTPError
  end.

(** Lines 78-82. *)
Definition fetch (url : string) : M world (list string) :=
  response <- session_get url ;;
  raise_for_status response.

(** Lines 85-95, on the [href]s of the page. *)
Fixpoint find_pdf_link (hrefs : list string) : option string :=
  match hrefs with
  | [] => None
  | href :: rest =>
      if Str.endswith (Str.lower href) ".pdf"
      then Some (urljoin "https://imslp.org" href)
      else find_pdf_link rest
  end.

(** Lines 98-105. *)
Definition download_pdf (pdf_url dest_path : string) : M world unit :=
  r <- session_get pdf_url ;;
  _ <- raise_for_status r ;;
  write_file dest_path.

(** The body of the loop of lines 117-147; it returns the new
    [last_request_time]. *)
Definition process_hymn (last_request_time : Q) (hymn : string) : M world Q :=
  safe_sleep last_request_time ;;
  last_request_time' <- time_time ;;
  let score_page_url := build_score_page_url hymn in
  resp <- except_HTTPError
            (hrefs <- fetch score_page_url ;; ret (Some hrefs))
            (log (Warning hymn) ;; ret None) ;;
  match resp with
  | None => ret last_request_time'                       (* continue *)
  | Some hrefs =>
      match find_pdf_link hrefs with
      | None | Some EmptyString =>
          log (Warning hymn) ;; ret last_request_time'   (* continue *)
      | Some pdf_link =>
          let safe_name :=
            Str.join "_" (filter Str.isalnum (Str.split hymn)) in
          let dest_file := (OUT_DIR ++ "/" ++ safe_name ++ ".pdf")%string in
          except_HTTPError
            (download_pdf pdf_link dest_file ;; log (Downloaded dest_file))
            (log (DownloadFailed hymn)) ;;
          ret last_request_time'
      end
  end.

Fixpoint process_all (last_request_time : Q) (hymns : list string) : M world unit :=
  match hymns with
  | [] => ret tt
  | hymn :: rest =>
      t <- process_hymn last_request_time hymn ;;
      process_all t rest
  end.

(** Lines 112-149, over the configured list of hymns. *)
Definition main (hymns : list string) : M world unit :=
  t <- time_time ;;
  process_all (t - MIN_DELAY) hymns.

End WithServer.

(** The times at which the requests were sent. *)
Definition request_times (w : world) : list Q := map fst (requests w).

End Scraper.

(* ================================================================== *)
(** * Sample inputs                                                    *)
(* ================================================================== *)

Module Sample.

(** A backend that never raises. *)
Definition sound : nat -> bool := fun _ => false.

(** A backend whose call number [k] (from 0) raises. *)
Definition breaks_at (k : nat) : nat -> bool := fun n => Nat.eqb n k.

Definition score_at_90 : score :=
  {| metronomeMarkBoundaries := [ {| number := 90 |}; {| number := 60 |} ];
     flat := [ Note 60 None 1 ] |}.

Definition c_major : element := Chord [60; 64; 67]%Z None 1.

(** A note of negative length. *)
Definition backwards : element := Note 60 None (-1).

(** Three notes, the second one above the MIDI range. *)
Definition too_high : score :=
  {| metronomeMarkBoundaries := [];
     flat := [ Note 60 None 1; Note 130 None 1; Note 62 None 1 ] |}.

(** No tempo marking (so 120 BPM): a note, a rest, a chord, one quarter
    length each. *)
Definition scenario : score :=
  {| metronomeMarkBoundaries := [];
     flat := [ Note 60 None 1; Rest 1; Chord [64; 67]%Z None 1 ] |}.

(** The hardware organ transposed up by five semitones. *)
Definition up_a_fourth : Organ.config :=
  {| Organ.ORGAN_CHANNEL := 1; Organ.ORGAN_KEY_OFFSET := 5;
     Organ.TIME_RESOLUTION := 5 # 100 |}.

(** A disk holding a MusicXML file and an earlier MIDI file. *)
Definition disk : list (Converter.path * Converter.kind) :=
  [ ("hymn.xml", Converter.RegularFile); ("hymn.mid", Converter.RegularFile) ]%string.

Definition convert_hymn : Converter.arguments :=
  {| Converter.input_xml := Some "hymn.xml"%string;
     Converter.output_midi := Some "hymn.mid"%string;
     Converter.program := None |}.

(** The same conversion to a file that does not exist yet, with a MIDI
    program, and with one that is out of range. *)
Definition convert_fresh (prog : option Z) : Converter.arguments :=
  {| Converter.input_xml := Some "hymn.xml"%string;
     Converter.output_midi := Some "new.mid"%string;
     Converter.program := prog |}.

(** The tool started with the given lines on standard input. *)
Definition at_prompt (lines : list string) : Converter.world :=
  {| Converter.files := disk; Converter.stdin := lines;
     Converter.written := []; Converter.stdout := [] |}.

(** A server that knows two hymns, each page linking to its PDF, and
    answers every request in 0.2 s. *)
Definition imslp (url : string) : Scraper.answer :=
  if String.eqb url "https://imslp.org/wiki/Amazing_Grace"
  then Scraper.Page [ "/wiki/Main_Page"; "/images/a/a1/Amazing_Grace.pdf" ]%string
  else if String.eqb url "https://imslp.org/wiki/Rock_Of_Ages"
  then Scraper.Page [ "/images/r/r2/Rock_Of_Ages.PDF" ]%string
  else if Str.endswith (Str.lower url) ".pdf"
  then Scraper.Page []
  else Scraper.ErrorStatus.

(** A server whose page for "Rock Of Ages" cannot be reached. *)
Definition imslp_down (url : string) : Scraper.answer :=
  if String.eqb url "https://imslp.org/wiki/Rock_Of_Ages"
  then Scraper.Unreachable
  else imslp url.

(** A server that answers every request with an error status. *)
Definition imslp_404 (url : string) : Scraper.answer := Scraper.ErrorStatus.

Definition fifth_of_a_second (url : string) : Q := 2 # 10.

Definition join_urls (base href : string) : string := (base ++ href)%string.

Definition at_noon : Scraper.world :=
  {| Scraper.clock := 43200; Scraper.requests := [];
     Scraper.saved := []; Scraper.journal := [] |}.

(** No tempo marking: a rest of two quarter lengths. *)
Definition long_rest : score :=
  {| metronomeMarkBoundaries := []; flat := [ Rest 2 ] |}.

(** A score without tempo marking, holding one chord of two pitches. *)
Definition one_chord : score :=
  {| metronomeMarkBoundaries := [];
     flat := [ Chord [64; 67]%Z None 1 ] |}.

End Sample.

(* ================================================================== *)
(** * The words of the specification                                   *)
(* ================================================================== *)

Module Spec.

(** The first tempo marking found in the score, if any. *)
Definition first_marking (sc : score) : option Q :=
  match metronomeMarkBoundaries sc with
  | [] => None
  | m :: _ => Some (number m)
  end.

(** "Precedence: explicit override > first tempo marking found in the
    score > default 120 BPM." *)
Definition bpm (override marking : option Q) : Q :=
  match override, marking with
  | Some b, _ => b
  | None, Some b => b
  | None, None => 120
  end.

(** The seconds that a list of events lasts at [spq] seconds per
    quarter note. *)
Definition seconds (spq : Q) (els : list element) : Q :=
  total (map (fun el => quarterLength el * spq)%Q els).

End Spec.

(* ================================================================== *)
(** * The two playback scripts from their first line to their last    *)
(* ================================================================== *)

Module Session.

(** The port of the hardware script, the synthesizer of the virtual one. *)
Inductive handle : Type := Unopened | Opened | Released.

(** The world of a whole script: the playback world, the state of the
    device handle, and the sound font and program selected on channel 0. *)
Record world : Type := {
  sound : Backend.world;
  device : handle;
  selected : option (Z * Z)
}.

Definition fresh : world :=
  {| sound := Backend.initial; device := Unopened; selected := None |}.

(** Run a playback computation inside the script. *)
Definition on_backend {A} (m : M Backend.world A) : M world A :=
  fun w =>
    let (r, b) := m (sound w) in
    (r, {| sound := b; device := device w; selected := selected w |}).

Definition set_device (h : handle) : M world unit :=
  fun w => (Ok tt, {| sound := sound w; device := h; selected := selected w |}).

Definition program_select (sfid prog : Z) : M world unit :=
  fun w => (Ok tt, {| sound := sound w; device := device w;
                      selected := Some (sfid, prog) |}).

(** [try: body  except Exception: ...; sys.exit(1)] *)
Definition or_exit_1 {A} (body : M world A) : M world A :=
  fun w =>
    match body w with
    | (Raise (SystemExit c), w') => (Raise (SystemExit c), w')
    | (Raise _, w') => (Raise (SystemExit 1), w')
    | ok => ok
    end.

(** What is outside the hardware script: whether the MIDI port can be
    opened, and what [converter.parse] makes of the score file. *)
Record organ_env : Type := {
  port_available : bool;
  organ_parse : option score
}.

(** What is outside the virtual organ script: whether [fs.start] raises,
    what [fs.sfload] returns, and what [converter.parse] makes of the file. *)
Record synth_env : Type := {
  driver_starts : bool;
  sfload : Z;
  synth_parse : option score
}.

Section WithBackend.

Variable backend_fails : nat -> bool.

(** play_sheet_on_organ.py, lines 25-124. *)
Definition organ_script (cfg : Organ.config) (env : organ_env) : M world unit :=
  (if port_available env then set_device Opened else raise (SystemExit 1)) ;;
  sc <- or_exit_1 (match organ_parse env with
                   | Some sc => ret sc
                   | None => raise RuntimeError
                   end) ;;
  on_backend (Organ.playback backend_fails cfg sc) ;;
  set_device Released.

(** play_sheet_on_virtual_organ.py, lines 26-119; [ORGAN_PROGRAM] and
    [TEMPO_BPM] are the configuration. *)
Definition synth_script (ORGAN_PROGRAM : Z) (TEMPO_BPM : option Q) (env : synth_env)
  : M world unit :=
  or_exit_1
    (set_device Opened ;;
     (if driver_starts env then ret tt else raise RuntimeError) ;;
     let sfid := sfload env in
     (if (sfid =? -1)%Z then raise RuntimeError else ret tt) ;;
     program_select sfid ORGAN_PROGRAM) ;;
  sc <- or_exit_1 (match synth_parse env with
                   | Some sc => ret sc
                   | None => raise RuntimeError
                   end) ;;
  on_backend (VirtualOrgan.playback backend_fails TEMPO_BPM sc) ;;
  set_device Released.

End WithBackend.

End Session.

(* ================================================================== *)
(** * Reading a run                                                    *)
(* ================================================================== *)

Module Observe.

(** The pitches an element sounds on the virtual organ. *)
Definition pitches_of (el : element) : list Z :=
  match el with
  | Note p _ _ => [p]
  | Chord ps _ _ => ps
  | _ => []
  end.

(** The pitches of the note-on calls of a log, in order; and of the
    note-off calls. *)
Definition on_pitches (l : list (Q * call)) : list Z :=
  flat_map (fun tc => match snd tc with
                      | NoteOn _ p _ => [p]
                      | NoteOff _ _ => []
                      end) l.
Definition off_pitches (l : list (Q * call)) : list Z :=
  flat_map (fun tc => match snd tc with
                      | NoteOn _ _ _ => []
                      | NoteOff _ p => [p]
                      end) l.

(** How long the hardware loop waits on an element. *)
Definition organ_wait (cfg : Organ.config) (el : element) : Q :=
  match el with
  | Rest d => d * Organ.TIME_RESOLUTION cfg
  | Note _ _ d | Chord _ _ d => d
  | Other _ => 0
  end.

(** The calls a run added are all of one kind. *)
Definition adds_only (P : call -> Prop) (w w' : world) : Prop :=
  exists l, adds w w' l /\ Forall (fun tc => P (snd tc)) l.

(** The two sleeps of the virtual organ on an element scheduled at [off]. *)
Definition synth_sleeps (bpm : Q) (eo : element * Q) : list Q :=
  [snd eo; quarterLength (fst eo) * (60 / bpm)].

(** A call the hardware translation can produce on channel [chan]. *)
Definition organ_call (chan : Z) (c : call) : Prop :=
  match c with
  | NoteOn ch p v => ch = chan /\ (0 <= p <= 127)%Z /\ (1 <= v <= 127)%Z
  | NoteOff ch p => ch = chan /\ (0 <= p <= 127)%Z
  end.

(** A call of the virtual organ: channel 0, and full velocity. *)
Definition synth_call (c : call) : Prop :=
  match c with
  | NoteOn ch _ v => ch = 0%Z /\ v = 127%Z
  | NoteOff ch _ => ch = 0%Z
  end.

(** The scraper's world once [safe_sleep last] has returned. *)
Definition after_delay (last : Q) (w : Scraper.world) : Scraper.world :=
  let elapsed := (Scraper.clock w - last)%Q in
  if Qlt_bool elapsed Scraper.MIN_DELAY
  then {| Scraper.clock := (Scraper.clock w + (Scraper.MIN_DELAY - elapsed))%Q;
          Scraper.requests := Scraper.requests w;
          Scraper.saved := Scraper.saved w;
          Scraper.journal := Scraper.journal w |}
  else w.

(** The scraper's world once a GET of [url] has been answered. *)
Definition sent (latency : string -> Q) (url : string) (w : Scraper.world)
  : Scraper.world :=
  {| Scraper.clock := (Scraper.clock w + latency url)%Q;
     Scraper.requests := Scraper.requests w ++ [(Scraper.clock w, url)];
     Scraper.saved := Scraper.saved w;
     Scraper.journal := Scraper.journal w |}.

Definition logged (e : Scraper.event) (w : Scraper.world) : Scraper.world :=
  {| Scraper.clock := Scraper.clock w; Scraper.requests := Scraper.requests w;
     Scraper.saved := Scraper.saved w;
     Scraper.journal := Scraper.journal w ++ [e] |}.

Definition wrote (dest : string) (w : Scraper.world) : Scraper.world :=
  {| Scraper.clock := Scraper.clock w; Scraper.requests := Scraper.requests w;
     Scraper.saved := Scraper.saved w ++ [dest];
     Scraper.journal := Scraper.journal w |}.

(** The file the scraper saves the PDF of a hymn to. *)
Definition dest_file (hymn : string) : string :=
  (Scraper.OUT_DIR ++ "/"
   ++ Str.join "_" (filter Str.isalnum (Str.split hymn)) ++ ".pdf")%string.

(** Whether [find_pdf_link] takes a link. *)
Definition is_pdf (href : string) : bool := Str.endswith (Str.lower href) ".pdf".

(** A character of a file name made by the scraper. *)
Definition name_char (c : ascii) : bool :=
  Str.is_upper c || Str.is_lower c || Str.is_digit c || Ascii.eqb c "_".

Fixpoint all_chars (f : ascii -> bool) (s : string) : bool :=
  match s with
  | EmptyString => true
  | String c s' => f c && all_chars f s'
  end.

End Observe.

(* ================================================================== *)
(** * Sample sessions                                                  *)
(* ================================================================== *)

Module Cases.

(** A port that opens and a score that parses; a sound font that does not
    load. *)
Definition organ_ready : Session.organ_env :=
  {| Session.port_available := true;
     Session.organ_parse := Some {| metronomeMarkBoundaries := [];
                                    flat := [ Note 60 None 1; Rest 1;
                                              Chord [64; 67]%Z None 1 ] |} |}.

Definition no_sound_font : Session.synth_env :=
  {| Session.driver_starts := true; Session.sfload := -1;
     Session.synth_parse := Some {| metronomeMarkBoundaries := [];
                                    flat := [ Note 60 None 1 ] |} |}.

End Cases.

(* ================================================================== *)
(** * Properties                                                       *)
(* ================================================================== *)

(** ** Running a computation step by step *)

Lemma bind_ok {W A B} (m : M W A) (k : A -> M W B) w a w1 :
  m w = (Ok a, w1) -> bind m k w = k a w1.
Proof. intros E. unfold bind. now rewrite E. Qed.

Lemma bind_raise {W A B} (m : M W A) (k : A -> M W B) w e w1 :
  m w = (Raise e, w1) -> bind m k w = (Raise e, w1).
Proof. intros E. unfold bind. now rewrite E. Qed.

Lemma bind_inv_ok {W A B} (m : M W A) (k : A -> M W B) w b w2 :
  bind m k w = (Ok b, w2) ->
  exists a w1, m w = (Ok a, w1) /\ k a w1 = (Ok b, w2).
Proof.
  unfold bind. destruct (m w) as [[a|e] w1]; intros E.
  - now exists a, w1.
  - discriminate.
Qed.

Lemma bind_inv {W A B} (m : M W A) (k : A -> M W B) w r w2 :
  bind m k w = (r, w2) ->
  (exists a w1, m w = (Ok a, w1) /\ k a w1 = (r, w2)) \/
  (exists e, m w = (Raise e, w2) /\ r = Raise e).
Proof.
  unfold bind. destruct (m w) as [[a|e] w1]; intros E.
  - left. now exists a, w1.
  - right. exists e. now inversion E.
Qed.

Lemma for_each_app {W A} (xs ys : list A) (body : A -> M W unit) w :
  for_each (xs ++ ys) body w =
  bind (for_each xs body) (fun _ => for_each ys body) w.
Proof.
  revert w. induction xs as [|x xs IH]; intros w; simpl.
  - reflexivity.
  - unfold bind. destruct (body x w) as [[[]|e] w1]; [|reflexivity].
    rewrite IH. reflexivity.
Qed.

(** A property of the world that every run of the body keeps, whatever
    its outcome, is kept by the loop. *)
Lemma for_each_preserves {W A} (P : W -> W -> Prop) (body : A -> M W unit) :
  (forall w, P w w) ->
  (forall w1 w2 w3, P w1 w2 -> P w2 w3 -> P w1 w3) ->
  forall xs : list A,
  (forall x w r w', In x xs -> body x w = (r, w') -> P w w') ->
  forall w r w', for_each xs body w = (r, w') -> P w w'.
Proof.
  intros Hrefl Htrans xs. induction xs as [|x xs IH]; intros Hbody w r w' E.
  - inversion E; subst. apply Hrefl.
  - simpl in E. apply bind_inv in E as [(a & w1 & E1 & E2) | (e & E1 & _)].
    + apply Htrans with w1.
      * eapply Hbody; [left; reflexivity | exact E1].
      * eapply IH; [|exact E2]. intros; eapply Hbody; [right|]; eassumption.
    + eapply Hbody; [left; reflexivity | exact E1].
Qed.

(** ** Arithmetic of the tests *)

Lemma Qle_bool_true (a b : Q) : Qle_bool a b = true -> a <= b.
Proof. apply Qle_bool_iff. Qed.

Lemma Qle_bool_of_le (a b : Q) : a <= b -> Qle_bool a b = true.
Proof. apply Qle_bool_iff. Qed.

Lemma truediv_ok (a b : Q) : ~ b == 0 -> truediv a b = Ok (a / b)%Q.
Proof.
  intros Hb. unfold truediv.
  destruct (Qeq_bool b 0) eqn:E; [|reflexivity].
  apply Qeq_bool_iff in E. contradiction.
Qed.

Lemma truediv_zero (a b : Q) : b == 0 -> truediv a b = Raise ZeroDivisionError.
Proof.
  intros Hb. unfold truediv. apply Qeq_bool_iff in Hb. now rewrite Hb.
Qed.

Lemma truediv_inv (a b q : Q) : truediv a b = Ok q -> ~ b == 0 /\ q = (a / b)%Q.
Proof.
  unfold truediv. destruct (Qeq_bool b 0) eqn:E; [discriminate|].
  intros H; inversion H; split; [|reflexivity].
  intros Hb. apply Qeq_bool_iff in Hb. congruence.
Qed.

(** ** The backend: what each primitive does to the world *)

Lemma sleep_inv t w r w' :
  sleep t w = (r, w') ->
  (r = Ok tt /\ 0 <= t /\ now w' = (now w + t)%Q /\ calls w' = calls w /\
   sleeps w' = sleeps w ++ [t] /\ current_offset w' = current_offset w /\
   started w' = started w)
  \/ (r = Raise ValueError /\ w' = w).
Proof.
  unfold sleep. destruct (Qle_bool 0 t) eqn:E; intros H; inversion H; subst.
  - left. simpl. repeat split. now apply Qle_bool_true.
  - now right.
Qed.

Lemma sleep_ok t w :
  0 <= t ->
  sleep t w = (Ok tt, {| now := (now w + t)%Q; calls := calls w;
                         sleeps := sleeps w ++ [t];
                         current_offset := current_offset w;
                         started := started w |}).
Proof. intros H. unfold sleep. now rewrite (Qle_bool_of_le H). Qed.

Lemma issue_inv fails c w r w' :
  issue fails c w = (r, w') ->
  now w' = now w /\ calls w' = calls w ++ [(now w, c)] /\
  sleeps w' = sleeps w /\ current_offset w' = current_offset w /\
  started w' = started w /\
  (r = Ok tt \/ r = Raise BackendError).
Proof.
  unfold issue. destruct (fails _); intros H; inversion H; subst; simpl;
    repeat split; auto.
Qed.

Lemma issue_ok fails c w :
  (forall n, fails n = false) ->
  issue fails c w = (Ok tt, {| now := now w; calls := calls w ++ [(now w, c)];
                              sleeps := sleeps w;
                              current_offset := current_offset w;
                              started := started w |}).
Proof. intros H. unfold issue. now rewrite H. Qed.

(* ------------------------------------------------------------------ *)
(** ** Tempo                                                           *)
(* ------------------------------------------------------------------ *)

Lemma resolve_bpm_spec (TEMPO_BPM : option Q) (sc : score) :
  VirtualOrgan.resolve_bpm TEMPO_BPM sc = Spec.bpm TEMPO_BPM (Spec.first_marking sc).
Proof.
  unfold VirtualOrgan.resolve_bpm, Spec.bpm, Spec.first_marking.
  destruct TEMPO_BPM; [reflexivity|].
  destruct (metronomeMarkBoundaries sc); reflexivity.
Qed.

(** C2.  Seconds per quarter note: 0.5 with no override and no tempo
    marking; 1.0 with an override of 60 whatever the score holds; in general
    60 / BPM, the BPM being the override, else the first tempo marking of the
    score, else 120.  The hardware script has no override and resolves its
    milliseconds per quarter note the same way. *)
Theorem C2_tempo_resolution :
  (forall sc, metronomeMarkBoundaries sc = [] ->
     exists s, VirtualOrgan.seconds_per_quarter None sc = Ok s /\ s == 1 # 2) /\
  (forall sc,
     exists s, VirtualOrgan.seconds_per_quarter (Some 60) sc = Ok s /\ s == 1) /\
  (forall TEMPO_BPM sc,
     let bpm := Spec.bpm TEMPO_BPM (Spec.first_marking sc) in
     ~ bpm == 0 ->
     VirtualOrgan.seconds_per_quarter TEMPO_BPM sc = Ok (60 / bpm)%Q) /\
  (forall sc,
     let bpm := Spec.bpm None (Spec.first_marking sc) in
     ~ bpm == 0 ->
     exists ms, Organ.ms_per_quarter sc = Ok ms /\ ms / 1000 == 60 / bpm).
Proof.
  repeat split.
  - intros sc Hm. exists (60 / 120)%Q. split; [|reflexivity].
    unfold VirtualOrgan.seconds_per_quarter, VirtualOrgan.resolve_bpm.
    rewrite Hm. reflexivity.
  - intros sc. exists (60 / 60)%Q. split; reflexivity.
  - intros T sc bpm Hb. unfold VirtualOrgan.seconds_per_quarter.
    rewrite resolve_bpm_spec. now apply truediv_ok.
  - intros sc bpm Hb. subst bpm. revert Hb.
    unfold Organ.ms_per_quarter, Spec.first_marking, Spec.bpm.
    destruct (metronomeMarkBoundaries sc) as [|m ms]; intros Hb.
    + exists (60000 / 120)%Q. split; reflexivity.
    + exists (60000 / number m)%Q. split; [now apply truediv_ok|].
      field. exact Hb.
Qed.

Lemma C2_tempo_resolution_witness :
  VirtualOrgan.seconds_per_quarter (Some 72) Sample.score_at_90 = Ok (60 / 72)%Q /\
  VirtualOrgan.seconds_per_quarter None Sample.score_at_90 = Ok (60 / 90)%Q /\
  exists ms, Organ.ms_per_quarter Sample.score_at_90 = Ok ms /\ ms / 1000 == 60 / 90.
Proof.
  split; [|split].
  - apply (proj1 (proj2 (proj2 C2_tempo_resolution)) (Some 72%Q) Sample.score_at_90).
    vm_compute. discriminate.
  - apply (proj1 (proj2 (proj2 C2_tempo_resolution)) None Sample.score_at_90).
    vm_compute. discriminate.
  - apply (proj2 (proj2 (proj2 C2_tempo_resolution)) Sample.score_at_90).
    vm_compute. discriminate.
Defined.

(* ------------------------------------------------------------------ *)
(** ** Counting backend calls                                          *)
(* ------------------------------------------------------------------ *)

Lemma ons_app l1 l2 : ons (l1 ++ l2) = (ons l1 + ons l2)%nat.
Proof. unfold ons. now rewrite filter_app, length_app. Qed.

Lemma offs_app l1 l2 : offs (l1 ++ l2) = (offs l1 + offs l2)%nat.
Proof. unfold offs. now rewrite filter_app, length_app. Qed.

Lemma ons_map_on (t : Q) (f : Z -> call) ps :
  (forall p, is_on (f p) = true) ->
  ons (map (fun p => (t, f p)) ps) = List.length ps /\
  offs (map (fun p => (t, f p)) ps) = 0%nat.
Proof.
  intros Hf. unfold ons, offs, is_off.
  induction ps as [|p ps [IH1 IH2]]; simpl; [now split|].
  rewrite Hf. simpl. now rewrite IH1, IH2.
Qed.

Lemma offs_map_off (t : Q) (f : Z -> call) ps :
  (forall p, is_on (f p) = false) ->
  offs (map (fun p => (t, f p)) ps) = List.length ps /\
  ons (map (fun p => (t, f p)) ps) = 0%nat.
Proof.
  intros Hf. unfold ons, offs, is_off.
  induction ps as [|p ps [IH1 IH2]]; simpl; [now split|].
  rewrite Hf. simpl. now rewrite IH1, IH2.
Qed.

Lemma adds_trans w1 w2 w3 l1 l2 :
  adds w1 w2 l1 -> adds w2 w3 l2 -> adds w1 w3 (l1 ++ l2).
Proof. unfold adds. intros H1 H2. now rewrite H2, H1, app_assoc. Qed.

(** A loop of backend calls, the world being otherwise untouched: it
    issues the calls of a prefix of the list, of all of it when it returns. *)
Lemma for_each_issue_inv fails (f : Z -> call) ps : forall w r w',
  for_each ps (fun p => issue fails (f p)) w = (r, w') ->
  exists k, (k <= List.length ps)%nat /\
    calls w' = calls w ++ map (fun p => (now w, f p)) (firstn k ps) /\
    now w' = now w /\ sleeps w' = sleeps w /\
    current_offset w' = current_offset w /\ started w' = started w /\
    (r = Ok tt -> k = List.length ps) /\
    (k < List.length ps -> r = Raise BackendError)%nat.
Proof.
  induction ps as [|p ps IH]; intros w r w' E; simpl in E.
  - inversion E; subst. exists 0%nat. simpl. rewrite app_nil_r.
    repeat split; auto; lia.
  - apply bind_inv in E as [(a & w1 & E1 & E2) | (e & E1 & Hr)].
    + apply issue_inv in E1 as (N1 & C1 & S1 & O1 & T1 & _).
      apply IH in E2 as (k & Hk & C2 & N2 & S2 & O2 & T2 & Hok & Hfail).
      exists (S k). simpl. rewrite C2, C1, N1, <- app_assoc. simpl.
      repeat split; try congruence; try lia.
      * intros Hr. now rewrite (Hok Hr).
      * intros Hlt. apply Hfail. lia.
    + apply issue_inv in E1 as (N1 & C1 & S1 & O1 & T1 & Hr1).
      exists 1%nat. simpl.
      repeat split; try assumption; try lia.
      * subst r. discriminate.
      * intros _. subst r. destruct Hr1 as [Hr1|Hr1]; congruence.
Qed.

Lemma for_each_issue_ok fails (f : Z -> call) ps :
  (forall n, fails n = false) ->
  forall w,
  for_each ps (fun p => issue fails (f p)) w =
  (Ok tt, {| now := now w;
             calls := calls w ++ map (fun p => (now w, f p)) ps;
             sleeps := sleeps w; current_offset := current_offset w;
             started := started w |}).
Proof.
  intros Hf. induction ps as [|p ps IH]; intros w; simpl.
  - rewrite app_nil_r. now destruct w.
  - erewrite bind_ok by (apply issue_ok; exact Hf).
    rewrite IH. simpl. now rewrite <- app_assoc.
Qed.

Lemma ons_of_map_off t q ps :
  ons_of q (map (fun p => (t, NoteOff 0 p)) ps) = 0%nat.
Proof. unfold ons_of. induction ps; simpl; auto. Qed.

Lemma offs_of_map_on t q ps :
  offs_of q (map (fun p => (t, NoteOn 0 p 127)) ps) = 0%nat.
Proof. unfold offs_of. induction ps; simpl; auto. Qed.

Lemma ons_of_absent t q ps :
  ~ In q ps -> ons_of q (map (fun p => (t, NoteOn 0 p 127)) ps) = 0%nat.
Proof.
  unfold ons_of. induction ps as [|p ps IH]; simpl; intros Hq; [reflexivity|].
  destruct (Z.eqb_spec q p) as [->|_]; [tauto|]. apply IH. tauto.
Qed.

Lemma offs_of_absent t q ps :
  ~ In q ps -> offs_of q (map (fun p => (t, NoteOff 0 p)) ps) = 0%nat.
Proof.
  unfold offs_of. induction ps as [|p ps IH]; simpl; intros Hq; [reflexivity|].
  destruct (Z.eqb_spec q p) as [->|_]; [tauto|]. apply IH. tauto.
Qed.

Lemma ons_of_cons q t c p v l :
  ons_of q ((t, NoteOn c p v) :: l) = ((if (q =? p)%Z then 1 else 0) + ons_of q l)%nat.
Proof. unfold ons_of. simpl. now destruct (q =? p)%Z. Qed.

Lemma offs_of_cons q t c p l :
  offs_of q ((t, NoteOff c p) :: l) = ((if (q =? p)%Z then 1 else 0) + offs_of q l)%nat.
Proof. unfold offs_of. simpl. now destruct (q =? p)%Z. Qed.

Lemma ons_of_once t q ps :
  NoDup ps -> In q ps -> ons_of q (map (fun p => (t, NoteOn 0 p 127)) ps) = 1%nat.
Proof.
  induction 1 as [|p ps Hp Hnd IH]; intros Hq; [destruct Hq|].
  simpl map. rewrite ons_of_cons.
  destruct (Z.eqb_spec q p) as [->|Hne].
  - now rewrite ons_of_absent.
  - destruct Hq as [Hq|Hq]; [congruence|]. now rewrite IH.
Qed.

Lemma offs_of_once t q ps :
  NoDup ps -> In q ps -> offs_of q (map (fun p => (t, NoteOff 0 p)) ps) = 1%nat.
Proof.
  induction 1 as [|p ps Hp Hnd IH]; intros Hq; [destruct Hq|].
  simpl map. rewrite offs_of_cons.
  destruct (Z.eqb_spec q p) as [->|Hne].
  - now rewrite offs_of_absent.
  - destruct Hq as [Hq|Hq]; [congruence|]. now rewrite IH.
Qed.

Lemma ons_of_app q l1 l2 : ons_of q (l1 ++ l2) = (ons_of q l1 + ons_of q l2)%nat.
Proof. unfold ons_of. now rewrite filter_app, length_app. Qed.

Lemma offs_of_app q l1 l2 : offs_of q (l1 ++ l2) = (offs_of q l1 + offs_of q l2)%nat.
Proof. unfold offs_of. now rewrite filter_app, length_app. Qed.

(* ------------------------------------------------------------------ *)
(** ** The virtual organ: one element                                  *)
(* ------------------------------------------------------------------ *)

(** C4.  All voices of a chord: with a backend that does not raise,
    [play_element] on a chord of pairwise distinct pitches, handed the start
    offset [time_offset], issues one note-on per pitch, all at the start
    offset, then one note-off per pitch, all at the start offset plus the
    chord's quarter length times the seconds per quarter note; each pitch
    gets exactly one note-on and one note-off. *)
Theorem C4_chord_all_voices
    (fails : nat -> bool) (bpm : Q) (pitches : list Z) (vel : option Z)
    (dur time_offset : Q) (w : world) :
  (forall n, fails n = false) ->
  NoDup pitches ->
  0 <= time_offset ->
  ~ bpm == 0 ->
  0 <= dur * (60 / bpm) ->
  let start := (now w + time_offset)%Q in
  let stop := (start + dur * (60 / bpm))%Q in
  let added := map (fun p => (start, NoteOn 0 p 127)) pitches
               ++ map (fun p => (stop, NoteOff 0 p)) pitches in
  exists w',
    VirtualOrgan.play_element fails bpm (Chord pitches vel dur) time_offset w
      = (Ok tt, w') /\
    calls w' = calls w ++ added /\
    ons added = List.length pitches /\
    offs added = List.length pitches /\
    (forall p, In p pitches -> ons_of p added = 1%nat /\ offs_of p added = 1%nat).
Proof.
  intros Hf Hnd Hoff Hbpm Hdur start stop added.
  eexists. split; [|split; [|split; [|split]]].
  - unfold VirtualOrgan.play_element.
    erewrite bind_ok by reflexivity.
    erewrite bind_ok by (apply sleep_ok; exact Hoff).
    erewrite bind_ok by (apply for_each_issue_ok; exact Hf).
    erewrite bind_ok by (unfold lift; rewrite (truediv_ok 60 Hbpm); reflexivity).
    erewrite bind_ok by (apply sleep_ok; exact Hdur).
    unfold VirtualOrgan.record_start, noteoff. simpl.
    rewrite for_each_issue_ok by exact Hf. simpl. reflexivity.
  - simpl. subst added start stop. now rewrite <- app_assoc.
  - subst added. rewrite ons_app.
    destruct (ons_map_on start (fun p => NoteOn 0 p 127) pitches) as [-> _];
      [reflexivity|].
    destruct (offs_map_off stop (fun p => NoteOff 0 p) pitches) as [_ ->];
      [reflexivity|]. lia.
  - subst added. rewrite offs_app.
    destruct (ons_map_on start (fun p => NoteOn 0 p 127) pitches) as [_ ->];
      [reflexivity|].
    destruct (offs_map_off stop (fun p => NoteOff 0 p) pitches) as [-> _];
      [reflexivity|]. lia.
  - intros p Hp. subst added. rewrite ons_of_app, offs_of_app.
    rewrite ons_of_once, ons_of_map_off, offs_of_map_on, offs_of_once by assumption.
    split; reflexivity.
Qed.

(** A chord of three pitches and one quarter length at 120 BPM: three
    note-ons at 0 s, three note-offs at 0.5 s. *)
Lemma C4_chord_all_voices_witness :
  exists w',
    VirtualOrgan.play_element Sample.sound 120 Sample.c_major 0 initial = (Ok tt, w') /\
    note_ons w' = 3%nat /\ note_offs w' = 3%nat /\
    Forall (fun tc => fst tc == if is_on (snd tc) then 0 else 1 # 2) (calls w').
Proof.
  destruct (@C4_chord_all_voices Sample.sound 120 [60; 64; 67]%Z None 1 0 initial)
    as (w' & E & C & Non & Noff & _).
  - reflexivity.
  - repeat constructor; simpl; intuition lia.
  - vm_compute. discriminate.
  - vm_compute. discriminate.
  - vm_compute. discriminate.
  - exists w'. split; [exact E|]. unfold note_ons, note_offs. rewrite C.
    split; [|split].
    + rewrite ons_app. simpl calls. rewrite Non. reflexivity.
    + rewrite offs_app. simpl calls. rewrite Noff. reflexivity.
    + simpl. repeat constructor.
Defined.

(* ------------------------------------------------------------------ *)
(** ** Note-ons and note-offs of a run                                 *)
(* ------------------------------------------------------------------ *)

Lemma balanced_refl w : balanced w w.
Proof. exists []. split; [unfold adds; now rewrite app_nil_r | reflexivity]. Qed.

Lemma balanced_trans w1 w2 w3 : balanced w1 w2 -> balanced w2 w3 -> balanced w1 w3.
Proof.
  intros (l1 & A1 & B1) (l2 & A2 & B2). exists (l1 ++ l2). split.
  - eapply adds_trans; eassumption.
  - rewrite ons_app, offs_app. lia.
Qed.

Lemma balanced_same_calls w w' : calls w' = calls w -> balanced w w'.
Proof. intros E. exists []. split; [unfold adds; now rewrite app_nil_r | reflexivity]. Qed.

Lemma balanced_counts w w' :
  balanced w w' ->
  (note_ons w' + note_offs w = note_offs w' + note_ons w)%nat.
Proof.
  intros (l & A & B). unfold note_ons, note_offs. rewrite A, ons_app, offs_app. lia.
Qed.

(** A loop whose body, when it returns, leaves the calls balanced leaves
    them balanced when it returns. *)
Lemma for_each_ok_preserves {W A} (P : W -> W -> Prop) (body : A -> M W unit) :
  (forall w, P w w) ->
  (forall w1 w2 w3, P w1 w2 -> P w2 w3 -> P w1 w3) ->
  forall xs : list A,
  (forall x w w', In x xs -> body x w = (Ok tt, w') -> P w w') ->
  forall w w', for_each xs body w = (Ok tt, w') -> P w w'.
Proof.
  intros Hrefl Htrans xs. induction xs as [|x xs IH]; intros Hbody w w' E.
  - inversion E; subst. apply Hrefl.
  - simpl in E. apply bind_inv_ok in E as ([] & w1 & E1 & E2).
    apply Htrans with w1.
    + eapply Hbody; [left; reflexivity | exact E1].
    + eapply IH; [|exact E2]. intros; eapply Hbody; [right|]; eassumption.
Qed.

Lemma play_element_balanced fails bpm el off w w' :
  VirtualOrgan.play_element fails bpm el off w = (Ok tt, w') -> balanced w w'.
Proof.
  unfold VirtualOrgan.play_element. intros E.
  apply bind_inv_ok in E as ([] & w1 & E1 & E).
  apply bind_inv_ok in E as ([] & w2 & E2 & E).
  assert (C2 : calls w2 = calls w).
  { inversion E1; subst w1. apply sleep_inv in E2 as [(_ & _ & _ & C & _)|[? _]];
      [exact C | discriminate]. }
  apply balanced_trans with w2; [now apply balanced_same_calls|]. clear E1 E2 C2 w1 w.
  destruct el as [p v d | ps v d | d | d].
  - apply bind_inv_ok in E as ([] & w3 & E3 & E).
    apply bind_inv_ok in E as (spq & w4 & E4 & E).
    apply bind_inv_ok in E as ([] & w5 & E5 & E6).
    unfold lift in E4. inversion E4; subst w4. clear E4.
    apply issue_inv in E3 as (N3 & C3 & _).
    apply sleep_inv in E5 as [(_ & _ & N5 & C5 & _)|[? _]]; [|discriminate].
    apply issue_inv in E6 as (_ & C6 & _).
    exists [(now w2, NoteOn 0 p 127); (now w5, NoteOff 0 p)]. split; [|reflexivity].
    unfold adds. rewrite C6, C5, C3, <- app_assoc. reflexivity.
  - apply bind_inv_ok in E as ([] & w3 & E3 & E).
    apply bind_inv_ok in E as (spq & w4 & E4 & E).
    apply bind_inv_ok in E as ([] & w5 & E5 & E6).
    unfold lift in E4. inversion E4; subst w4. clear E4.
    apply for_each_issue_inv in E3 as (k3 & _ & C3 & _ & _ & _ & _ & K3 & _).
    apply sleep_inv in E5 as [(_ & _ & N5 & C5 & _)|[? _]]; [|discriminate].
    apply for_each_issue_inv in E6 as (k6 & _ & C6 & _ & _ & _ & _ & K6 & _).
    rewrite (K3 eq_refl), firstn_all in C3. rewrite (K6 eq_refl), firstn_all in C6.
    eexists. split.
    + unfold adds. rewrite C6, C5, C3, <- app_assoc. reflexivity.
    + rewrite ons_app, offs_app.
      destruct (ons_map_on (now w2) (fun p => NoteOn 0 p 127) ps) as [-> ->];
        [reflexivity|].
      destruct (offs_map_off (now w5) (fun p => NoteOff 0 p) ps) as [-> ->];
        [reflexivity|]. lia.
  - inversion E; subst. apply balanced_refl.
  - inversion E; subst. apply balanced_refl.
Qed.

Lemma stream_step_balanced fails bpm spq el w w' :
  VirtualOrgan.stream_step fails bpm spq el w = (Ok tt, w') -> balanced w w'.
Proof.
  unfold VirtualOrgan.stream_step. intros E.
  apply bind_inv_ok in E as (off & w1 & E1 & E).
  apply bind_inv_ok in E as ([] & w2 & E2 & E).
  apply bind_inv_ok in E as (off' & w3 & E3 & E4).
  inversion E1; subst. inversion E3; subst. inversion E4; subst.
  apply balanced_trans with w3; [eapply play_element_balanced; eassumption|].
  now apply balanced_same_calls.
Qed.

Lemma virtual_playback_balanced fails TEMPO_BPM sc w w' :
  VirtualOrgan.playback fails TEMPO_BPM sc w = (Ok tt, w') -> balanced w w'.
Proof.
  unfold VirtualOrgan.playback. intros E.
  apply bind_inv_ok in E as ([] & w1 & E1 & E).
  apply bind_inv_ok in E as (spq & w2 & E2 & E).
  inversion E1; subst w1. unfold lift in E2. inversion E2; subst w2.
  eapply balanced_trans; [apply balanced_same_calls|].
  2:{ unfold VirtualOrgan.stream_loop in E.
      eapply for_each_ok_preserves;
        [apply balanced_refl | apply balanced_trans | | exact E].
      intros; eapply stream_step_balanced; eassumption. }
  reflexivity.
Qed.

(* ------------------------------------------------------------------ *)
(** ** The hardware organ: translation                                 *)
(* ------------------------------------------------------------------ *)

Lemma mido_Message_inv ty n v c t m :
  Organ.mido_Message ty n v c t = Ok m ->
  m = {| Organ.type := ty; Organ.note := n; Organ.velocity := v;
         Organ.channel := c; Organ.time := t |} /\
  Organ.data_byte n = true /\ Organ.data_byte v = true /\ Organ.channel_ok c = true.
Proof.
  unfold Organ.mido_Message.
  destruct (Organ.data_byte n), (Organ.data_byte v), (Organ.channel_ok c);
    simpl; intros H; inversion H; auto.
Qed.

Lemma mido_Message_ok ty n v c t :
  Organ.data_byte n = true -> Organ.data_byte v = true -> Organ.channel_ok c = true ->
  Organ.mido_Message ty n v c t =
  Ok {| Organ.type := ty; Organ.note := n; Organ.velocity := v;
        Organ.channel := c; Organ.time := t |}.
Proof. unfold Organ.mido_Message. now intros -> -> ->. Qed.

Lemma mido_Message_bad_note ty n v c t :
  Organ.data_byte n = false -> Organ.mido_Message ty n v c t = Raise ValueError.
Proof. unfold Organ.mido_Message. now intros ->. Qed.

Lemma data_byte_iff v : Organ.data_byte v = true <-> (0 <= v <= 127)%Z.
Proof. unfold Organ.data_byte. rewrite andb_true_iff, !Z.leb_le. tauto. Qed.

Lemma compute_velocity_byte v :
  match v with Some n => (0 <= n <= 127)%Z | None => True end ->
  Organ.data_byte (Organ.compute_velocity v) = true.
Proof.
  destruct v as [n|]; simpl; [|reflexivity]. intros Hn.
  destruct (n =? 0)%Z; [reflexivity|]. now apply data_byte_iff.
Qed.

(** What the translation returns when it returns: nothing for a rest, a
    note-on and a note-off otherwise. *)
Lemma note_to_midi_events_inv cfg el t evs dur :
  Organ.note_to_midi_events cfg el t = Ok (evs, dur) ->
  dur = quarterLength el /\
  ((is_rest el = true /\ evs = []) \/
   (is_rest el = false /\
    exists n v,
      evs = [ {| Organ.type := Organ.note_on; Organ.note := n; Organ.velocity := v;
                 Organ.channel := (Organ.ORGAN_CHANNEL cfg - 1)%Z; Organ.time := t |};
              {| Organ.type := Organ.note_off; Organ.note := n; Organ.velocity := 0;
                 Organ.channel := (Organ.ORGAN_CHANNEL cfg - 1)%Z;
                 Organ.time := (dur * 1000)%Q |} ])).
Proof.
  unfold Organ.note_to_midi_events.
  destruct el as [p v d | ps v d | d | d]; simpl.
  - destruct (Organ.mido_Message Organ.note_on _ _ _ _) as [on|] eqn:Eon; [|discriminate].
    destruct (Organ.mido_Message Organ.note_off _ _ _ _) as [off|] eqn:Eoff; [|discriminate].
    intros H; inversion H; subst. split; [reflexivity|]. right. split; [reflexivity|].
    apply mido_Message_inv in Eon as (-> & _). apply mido_Message_inv in Eoff as (-> & _).
    eauto.
  - destruct (Organ.last_item _) as [top|]; [|discriminate].
    destruct (Organ.mido_Message Organ.note_on _ _ _ _) as [on|] eqn:Eon; [|discriminate].
    destruct (Organ.mido_Message Organ.note_off _ _ _ _) as [off|] eqn:Eoff; [|discriminate].
    intros H; inversion H; subst. split; [reflexivity|]. right. split; [reflexivity|].
    apply mido_Message_inv in Eon as (-> & _). apply mido_Message_inv in Eoff as (-> & _).
    eauto.
  - intros H; inversion H; subst. split; [reflexivity|]. now left.
  - discriminate.
Qed.

Lemma organ_step_balanced fails cfg el w w' :
  Organ.playback_step fails cfg el w = (Ok tt, w') -> balanced w w'.
Proof.
  unfold Organ.playback_step. intros E.
  apply bind_inv_ok in E as ([evs dur] & w1 & E1 & E).
  unfold lift in E1. inversion E1 as [[Ev Hw]]. subst w1.
  apply note_to_midi_events_inv in Ev as (_ & [(_ & ->) | (_ & n & v & ->)]).
  - apply sleep_inv in E as [(_ & _ & _ & C & _)|[? _]]; [|discriminate].
    now apply balanced_same_calls.
  - simpl in E.
    apply bind_inv_ok in E as ([] & w2 & E2 & E).
    apply bind_inv_ok in E2 as ([] & w3 & E3 & E4).
    apply bind_inv_ok in E as ([] & w5 & E5 & E).
    apply bind_inv_ok in E5 as ([] & w6 & E6 & E7).
    inversion E; subst w5. clear E.
    unfold Organ.send in E3, E6. simpl in E3, E6.
    apply issue_inv in E3 as (_ & C3 & _).
    apply sleep_inv in E4 as [(_ & _ & _ & C4 & _)|[? _]]; [|discriminate].
    apply issue_inv in E6 as (_ & C6 & _).
    apply sleep_inv in E7 as [(_ & _ & _ & C7 & _)|[? _]]; [|discriminate].
    eexists. split.
    + unfold adds. rewrite C7, C6, C4, C3, <- app_assoc. reflexivity.
    + reflexivity.
Qed.

Lemma organ_playback_balanced fails cfg sc w w' :
  Organ.playback fails cfg sc w = (Ok tt, w') -> balanced w w'.
Proof.
  unfold Organ.playback. intros E.
  apply bind_inv_ok in E as (ms & w1 & E1 & E).
  unfold lift in E1. inversion E1; subst w1.
  eapply for_each_ok_preserves;
    [apply balanced_refl | apply balanced_trans | | exact E].
  intros; eapply organ_step_balanced; eassumption.
Qed.

(** C1, as the code has it.  In every run of either playback loop that
    ends without an exception, the loop issued as many note-off calls as
    note-on calls. *)
Theorem C1_balanced_runs :
  (forall fails TEMPO_BPM sc w w',
     VirtualOrgan.playback fails TEMPO_BPM sc w = (Ok tt, w') ->
     exists l, calls w' = calls w ++ l /\ ons l = offs l) /\
  (forall fails cfg sc w w',
     Organ.playback fails cfg sc w = (Ok tt, w') ->
     exists l, calls w' = calls w ++ l /\ ons l = offs l).
Proof.
  split; intros.
  - eapply virtual_playback_balanced; eassumption.
  - eapply organ_playback_balanced; eassumption.
Qed.

Lemma C1_balanced_runs_witness :
  let w' := snd (VirtualOrgan.playback Sample.sound None Sample.scenario initial) in
  exists l, calls w' = calls initial ++ l /\ ons l = offs l.
Proof.
  apply (proj1 C1_balanced_runs Sample.sound None Sample.scenario initial).
  vm_compute. reflexivity.
Defined.

(** C1 as stated fails: the backend raises on the second note-on of a
    chord; the exception leaves the loop, two note-ons have been issued and
    no note-off. *)
Lemma C1_stuck_pitch_counterexample :
  let run := VirtualOrgan.playback (Sample.breaks_at 1) None Sample.one_chord initial in
  fst run = Raise BackendError /\
  map snd (calls (snd run)) = [NoteOn 0 64 127; NoteOn 0 67 127] /\
  note_ons (snd run) <> note_offs (snd run).
Proof.
  split; [|split].
  - vm_compute. reflexivity.
  - vm_compute. reflexivity.
  - vm_compute. discriminate.
Qed.

(* ------------------------------------------------------------------ *)
(** ** The virtual organ: the running clock                            *)
(* ------------------------------------------------------------------ *)

Lemma seconds_cons spq el els :
  Spec.seconds spq (el :: els) = (quarterLength el * spq + Spec.seconds spq els)%Q.
Proof. reflexivity. Qed.

Lemma seconds_app spq l1 l2 :
  Spec.seconds spq (l1 ++ l2) == Spec.seconds spq l1 + Spec.seconds spq l2.
Proof.
  induction l1 as [|el l1 IH]; simpl app.
  - unfold Spec.seconds at 2. simpl. ring.
  - rewrite !seconds_cons, IH. ring.
Qed.

(** [play_element] leaves the clock alone and records its argument. *)
Lemma play_element_frame fails bpm el off w r w' :
  VirtualOrgan.play_element fails bpm el off w = (r, w') ->
  current_offset w' = current_offset w /\
  started w' = started w ++ [(el, off)].
Proof.
  unfold VirtualOrgan.play_element. intros E.
  apply bind_inv in E as [([] & w1 & E1 & E) | (e & E1 & _)]; [|discriminate].
  inversion E1; subst w1. clear E1.
  set (w1 := {| now := now w |}) in *.
  assert (F1 : current_offset w1 = current_offset w /\
               started w1 = started w ++ [(el, off)]) by (split; reflexivity).
  clearbody w1. destruct F1 as [<- <-]. clear w.
  apply bind_inv in E as [([] & w2 & E2 & E) | (e & E2 & _)].
  2:{ apply sleep_inv in E2 as [[? _]|[_ ->]]; [discriminate | now split]. }
  apply sleep_inv in E2 as [(_ & _ & _ & _ & _ & <- & <-)|[? _]]; [|discriminate].
  clear w1.
  assert (Hissue : forall c w r w', issue fails c w = (r, w') ->
            current_offset w' = current_offset w /\ started w' = started w).
  { intros c w r0 w0 H. apply issue_inv in H as (_ & _ & _ & -> & -> & _). now split. }
  assert (Hsleep : forall t w r w', sleep t w = (r, w') ->
            current_offset w' = current_offset w /\ started w' = started w).
  { intros t w r0 w0 H.
    apply sleep_inv in H as [(_ & _ & _ & _ & _ & -> & ->)|[_ ->]]; now split. }
  assert (Hloop : forall (f : Z -> call) ps w r w',
            for_each ps (fun p => issue fails (f p)) w = (r, w') ->
            current_offset w' = current_offset w /\ started w' = started w).
  { intros f ps w r0 w0 H.
    apply for_each_issue_inv in H as (_ & _ & _ & _ & _ & -> & -> & _). now split. }
  destruct el as [p v d | ps v d | d | d].
  - apply bind_inv in E as [([] & w3 & E3 & E) | (e & E3 & _)];
      [|now apply Hissue in E3].
    apply Hissue in E3 as [<- <-].
    apply bind_inv in E as [(spq & w4 & E4 & E) | (e & E4 & _)];
      [|unfold lift in E4; inversion E4; now split].
    unfold lift in E4. inversion E4; subst w4. clear E4.
    apply bind_inv in E as [([] & w5 & E5 & E) | (e & E5 & _)];
      [|now apply Hsleep in E5].
    apply Hsleep in E5 as [<- <-]. now apply Hissue in E.
  - apply bind_inv in E as [([] & w3 & E3 & E) | (e & E3 & _)];
      [|now apply Hloop in E3].
    apply Hloop in E3 as [<- <-].
    apply bind_inv in E as [(spq & w4 & E4 & E) | (e & E4 & _)];
      [|unfold lift in E4; inversion E4; now split].
    unfold lift in E4. inversion E4; subst w4. clear E4.
    apply bind_inv in E as [([] & w5 & E5 & E) | (e & E5 & _)];
      [|now apply Hsleep in E5].
    apply Hsleep in E5 as [<- <-]. now apply Hloop in E.
  - inversion E. now split.
  - inversion E. now split.
Qed.

(** When [play_element] returns from a note or a chord, it has slept the
    duration, so the duration in seconds is not negative. *)
Lemma play_element_ok_duration fails bpm el off w w' :
  VirtualOrgan.play_element fails bpm el off w = (Ok tt, w') ->
  (is_note el || is_chord el) = true ->
  exists spq, truediv 60 bpm = Ok spq /\ 0 <= quarterLength el * spq.
Proof.
  unfold VirtualOrgan.play_element. intros E Hel.
  apply bind_inv_ok in E as ([] & w1 & _ & E).
  apply bind_inv_ok in E as ([] & w2 & _ & E).
  destruct el as [p v d | ps v d | d | d]; try discriminate.
  - apply bind_inv_ok in E as ([] & w3 & _ & E).
    apply bind_inv_ok in E as (spq & w4 & E4 & E).
    apply bind_inv_ok in E as ([] & w5 & E5 & _).
    unfold lift in E4. inversion E4 as [[Hd Hw]]. exists spq. split; [exact Hd|].
    apply sleep_inv in E5 as [(_ & H & _)|[? _]]; [exact H | discriminate].
  - apply bind_inv_ok in E as ([] & w3 & _ & E).
    apply bind_inv_ok in E as (spq & w4 & E4 & E).
    apply bind_inv_ok in E as ([] & w5 & E5 & _).
    unfold lift in E4. inversion E4 as [[Hd Hw]]. exists spq. split; [exact Hd|].
    apply sleep_inv in E5 as [(_ & H & _)|[? _]]; [exact H | discriminate].
Qed.

Lemma stream_step_ok fails bpm spq el w w' :
  VirtualOrgan.stream_step fails bpm spq el w = (Ok tt, w') ->
  current_offset w' = (current_offset w + quarterLength el * spq)%Q /\
  started w' = started w ++ [(el, current_offset w)].
Proof.
  unfold VirtualOrgan.stream_step. intros E.
  apply bind_inv_ok in E as (off & w1 & E1 & E).
  apply bind_inv_ok in E as ([] & w2 & E2 & E).
  apply bind_inv_ok in E as (off' & w3 & E3 & E4).
  inversion E1; subst off w1. inversion E3; subst off' w3. inversion E4; subst w'.
  apply play_element_frame in E2 as [-> ->]. simpl. now split.
Qed.

(** Whatever its outcome, one turn of the loop on a note or a chord does
    not move the clock back. *)
Lemma stream_step_monotone fails bpm spq el w r w' :
  truediv 60 bpm = Ok spq ->
  (is_note el || is_chord el) = true ->
  VirtualOrgan.stream_step fails bpm spq el w = (r, w') ->
  current_offset w <= current_offset w'.
Proof.
  intros Hspq Hel E. unfold VirtualOrgan.stream_step in E.
  apply bind_inv in E as [(off & w1 & E1 & E) | (e & E1 & _)]; [|discriminate].
  inversion E1; subst off w1. clear E1.
  apply bind_inv in E as [([] & w2 & E2 & E) | (e & E2 & _)].
  - pose proof E2 as E2'.
    apply play_element_ok_duration in E2' as (spq' & Hspq' & Hd); [|exact Hel].
    rewrite Hspq in Hspq'. inversion Hspq'; subst spq'.
    apply play_element_frame in E2 as [C2 _].
    apply bind_inv in E as [(off' & w3 & E3 & E4) | (e & E3 & _)]; [|discriminate].
    inversion E3; subst off' w3. inversion E4; subst. simpl. rewrite C2. lra.
  - apply play_element_frame in E2 as [-> _]. lra.
Qed.

Lemma filter_note_chord els :
  Forall (fun el => (is_note el || is_chord el) = true)
         (getElementsByClass_Note_Chord els).
Proof.
  apply Forall_forall. intros el Hin.
  unfold getElementsByClass_Note_Chord in Hin. now apply filter_In in Hin.
Qed.

Lemma stream_loop_monotone fails bpm spq els w r w' :
  truediv 60 bpm = Ok spq ->
  Forall (fun el => (is_note el || is_chord el) = true) els ->
  VirtualOrgan.stream_loop fails bpm spq els w = (r, w') ->
  current_offset w <= current_offset w'.
Proof.
  intros Hspq Hels E. unfold VirtualOrgan.stream_loop in E.
  revert E.
  apply (for_each_preserves (fun w w' => current_offset w <= current_offset w')
           (VirtualOrgan.stream_step fails bpm spq)) with (xs := els).
  - intros; lra.
  - intros; lra.
  - intros el w0 r0 w0' Hin E. rewrite Forall_forall in Hels.
    eapply stream_step_monotone; eauto.
Qed.

Lemma stream_loop_ok fails bpm spq els : forall w w',
  VirtualOrgan.stream_loop fails bpm spq els w = (Ok tt, w') ->
  current_offset w' == current_offset w + Spec.seconds spq els /\
  map fst (started w') = map fst (started w) ++ els.
Proof.
  unfold VirtualOrgan.stream_loop.
  induction els as [|el els IH]; intros w w' E; simpl in E.
  - inversion E; subst. unfold Spec.seconds. simpl. rewrite app_nil_r.
    split; [ring | reflexivity].
  - apply bind_inv_ok in E as ([] & w1 & E1 & E2).
    apply stream_step_ok in E1 as [C1 S1]. apply IH in E2 as [C2 S2].
    rewrite C2, C1, S2, S1, seconds_cons, map_app, <- app_assoc. simpl.
    split; [ring | reflexivity].
Qed.

(** C6, as the code has it.  The loop runs over the notes and chords of the
    score, the rests being filtered out.  Let [done] be the elements
    dispatched up to some point of a run and [w1] the world at that point:
    the elements handed to [play_element] so far are exactly [done], there is
    no rest among them, the clock is the sum of their durations in seconds,
    and at every later point [w2] of the run, however it goes on, the clock
    is not smaller. *)
Theorem C6_clock_is_sum_of_notes_and_chords
    (fails : nat -> bool) (TEMPO_BPM : option Q) (sc : score) (spq : Q)
    (done more rest : list element) (w0 w w1 w2 : world) (r : result unit) :
  VirtualOrgan.seconds_per_quarter TEMPO_BPM sc = Ok spq ->
  getElementsByClass_Note_Chord (flat sc) = done ++ more ++ rest ->
  VirtualOrgan.set_current_offset 0 w0 = (Ok tt, w) ->
  let bpm := VirtualOrgan.resolve_bpm TEMPO_BPM sc in
  VirtualOrgan.stream_loop fails bpm spq done w = (Ok tt, w1) ->
  VirtualOrgan.stream_loop fails bpm spq (done ++ more) w = (r, w2) ->
  map fst (started w1) = map fst (started w0) ++ done /\
  Forall (fun el => is_rest el = false) done /\
  current_offset w1 == Spec.seconds spq done /\
  current_offset w1 <= current_offset w2.
Proof.
  intros Hspq Hsplit Hset bpm E1 E2.
  inversion Hset; subst w. clear Hset.
  pose proof (filter_note_chord (flat sc)) as Hall. rewrite Hsplit in Hall.
  apply Forall_app in Hall as [Hdone Hall]. apply Forall_app in Hall as [Hmore _].
  pose proof E1 as E1'. apply stream_loop_ok in E1' as [C1 S1]. simpl in C1, S1.
  split; [exact S1|]. split; [|split].
  - eapply Forall_impl; [|exact Hdone]. intros [] H; simpl in *; congruence.
  - rewrite C1. ring.
  - unfold VirtualOrgan.stream_loop in E2. rewrite for_each_app in E2.
    fold (VirtualOrgan.stream_loop fails bpm spq done) in E2.
    erewrite bind_ok in E2 by exact E1.
    eapply stream_loop_monotone; [exact Hspq | exact Hmore | exact E2].
Qed.

Lemma C6_clock_is_sum_of_notes_and_chords_witness :
  let w := snd (VirtualOrgan.set_current_offset 0 initial) in
  let w1 := snd (VirtualOrgan.stream_loop Sample.sound 120 (60 / 120)
                   [Note 60 None 1] w) in
  let w2 := snd (VirtualOrgan.stream_loop Sample.sound 120 (60 / 120)
                   [Note 60 None 1; Chord [64; 67]%Z None 1] w) in
  map fst (started w1) = [Note 60 None 1] /\
  Forall (fun el => is_rest el = false) [Note 60 None 1] /\
  current_offset w1 == Spec.seconds (60 / 120) [Note 60 None 1] /\
  current_offset w1 <= current_offset w2.
Proof.
  intros w w1 w2.
  apply (@C6_clock_is_sum_of_notes_and_chords Sample.sound None Sample.scenario
           (60 / 120)%Q [Note 60 None 1] [Chord [64; 67]%Z None 1] []
           initial w w1 w2 (Ok tt)).
  - vm_compute. reflexivity.
  - vm_compute. reflexivity.
  - vm_compute. reflexivity.
  - vm_compute. reflexivity.
  - vm_compute. reflexivity.
Defined.

(** C6 as stated fails: with a rest in the score the clock at the end of
    the run is 1.0 s, while the durations of all the events, the rest
    included, add up to 1.5 s. *)
Lemma C6_rest_not_counted_counterexample :
  let run := VirtualOrgan.playback Sample.sound None Sample.scenario initial in
  fst run = Ok tt /\
  current_offset (snd run) == 1 /\
  Spec.seconds (1 # 2) (notesAndRests (flat Sample.scenario)) == 3 # 2 /\
  ~ current_offset (snd run)
    == Spec.seconds (1 # 2) (notesAndRests (flat Sample.scenario)).
Proof.
  intros run. split; [|split; [|split]].
  - vm_compute. reflexivity.
  - vm_compute. reflexivity.
  - vm_compute. reflexivity.
  - vm_compute. intros H. discriminate.
Qed.

(* ------------------------------------------------------------------ *)
(** ** The scenario: a note, a rest, a chord                           *)
(* ------------------------------------------------------------------ *)

(** C7, as the code has it.  The virtual organ at 120 BPM on a note (60),
    a rest and a chord (64, 67) of one quarter length each: the run ends, its
    sleeps total 1.5 s, it issues three note-ons and three note-offs (one
    pair for the note, two for the chord, none for the rest); the rest is
    never handed to [play_element]; the note is scheduled at offset 0.0 s
    and the chord at offset 0.5 s. *)
Theorem C7_scenario_on_virtual_organ :
  let run := VirtualOrgan.playback Sample.sound None Sample.scenario initial in
  fst run = Ok tt /\
  total (sleeps (snd run)) == 3 # 2 /\
  note_ons (snd run) = 3%nat /\
  note_offs (snd run) = 3%nat /\
  same_calls (calls (snd run))
    [ (0, NoteOn 0 60 127); (1 # 2, NoteOff 0 60);
      (1, NoteOn 0 64 127); (1, NoteOn 0 67 127);
      (3 # 2, NoteOff 0 64); (3 # 2, NoteOff 0 67) ] /\
  map fst (started (snd run)) = [ Note 60 None 1; Chord [64; 67]%Z None 1 ] /\
  Forall2 Qeq (map snd (started (snd run))) [ 0; 1 # 2 ].
Proof.
  intros run. split; [|split; [|split; [|split; [|split; [|split]]]]].
  - vm_compute. reflexivity.
  - vm_compute. reflexivity.
  - vm_compute. reflexivity.
  - vm_compute. reflexivity.
  - vm_compute. repeat constructor.
  - vm_compute. reflexivity.
  - vm_compute. repeat constructor.
Qed.

(** C7 as stated fails: the run has two scheduled offsets, not the three
    0.0 s, 0.5 s, 1.0 s; the second one, the chord's, is 0.5 s. *)
Lemma C7_offsets_counterexample :
  let run := VirtualOrgan.playback Sample.sound None Sample.scenario initial in
  ~ Forall2 Qeq (map snd (started (snd run))) [ 0; 1 # 2; 1 ] /\
  (forall el off, nth_error (started (snd run)) 1 = Some (el, off) ->
     el = Chord [64; 67]%Z None 1 /\ ~ off == 1).
Proof.
  split.
  - vm_compute. intros H.
    inversion H as [|? ? ? ? _ H1]; subst.
    inversion H1 as [|? ? ? ? _ H2]; subst. inversion H2.
  - vm_compute. intros el off H. inversion H; subst. split; [reflexivity|].
    discriminate.
Qed.

(* ------------------------------------------------------------------ *)
(** ** Rests                                                           *)
(* ------------------------------------------------------------------ *)

Lemma filter_skips_rest l1 d l2 :
  getElementsByClass_Note_Chord (l1 ++ Rest d :: l2) =
  getElementsByClass_Note_Chord (l1 ++ l2).
Proof.
  unfold getElementsByClass_Note_Chord. now rewrite !filter_app.
Qed.

(** C3, as the code has it.  A rest of quarter length [d] translates to no
    message at all, with duration [d].  The hardware loop then sleeps
    [d] times [TIME_RESOLUTION], the configured seconds per quarter note,
    whatever the tempo of the score, and calls nothing.  The virtual organ
    filters rests out: a score plays the same with and without a rest, so a
    rest neither waits nor moves the clock. *)
Theorem C3_rests :
  (forall cfg d t, Organ.note_to_midi_events cfg (Rest d) t = Ok ([], d)) /\
  (forall fails cfg d w,
     0 <= d * Organ.TIME_RESOLUTION cfg ->
     Organ.playback_step fails cfg (Rest d) w =
     (Ok tt, {| now := (now w + d * Organ.TIME_RESOLUTION cfg)%Q;
                calls := calls w;
                sleeps := sleeps w ++ [(d * Organ.TIME_RESOLUTION cfg)%Q];
                current_offset := current_offset w;
                started := started w |})) /\
  (forall fails TEMPO_BPM marks l1 d l2 w,
     VirtualOrgan.playback fails TEMPO_BPM
       {| metronomeMarkBoundaries := marks; flat := l1 ++ Rest d :: l2 |} w =
     VirtualOrgan.playback fails TEMPO_BPM
       {| metronomeMarkBoundaries := marks; flat := l1 ++ l2 |} w).
Proof.
  split; [|split].
  - reflexivity.
  - intros fails cfg d w Hd. unfold Organ.playback_step.
    erewrite bind_ok by reflexivity. now apply sleep_ok.
  - intros. unfold VirtualOrgan.playback. simpl flat.
    now rewrite filter_skips_rest.
Qed.

Lemma C3_rests_witness :
  Organ.playback_step Sample.sound Organ.default_config (Rest 2) initial =
  (Ok tt, {| now := (0 + 2 * (5 # 100))%Q; calls := [];
             sleeps := [(2 * (5 # 100))%Q];
             current_offset := 0; started := [] |}).
Proof.
  apply (proj1 (proj2 C3_rests) Sample.sound Organ.default_config 2 initial).
  vm_compute. discriminate.
Defined.

(** C3 as stated fails: at 120 BPM, 0.5 s per quarter note, a rest of two
    quarter lengths makes the hardware loop wait 0.1 s, and makes the virtual
    organ neither wait nor move its clock; neither is 1.0 s. *)
Lemma C3_rest_wait_counterexample :
  let hw := Organ.playback Sample.sound Organ.default_config Sample.long_rest initial in
  let vo := VirtualOrgan.playback Sample.sound None Sample.long_rest initial in
  VirtualOrgan.seconds_per_quarter None Sample.long_rest = Ok (60 / 120)%Q /\
  fst hw = Ok tt /\
  now (snd hw) == 1 # 10 /\
  ~ now (snd hw) == 2 * (60 / 120) /\
  fst vo = Ok tt /\
  sleeps (snd vo) = [] /\
  ~ current_offset (snd vo) == 2 * (60 / 120).
Proof.
  intros hw vo. split; [|split; [|split; [|split; [|split; [|split]]]]].
  - vm_compute. reflexivity.
  - vm_compute. reflexivity.
  - vm_compute. reflexivity.
  - vm_compute. intros H. discriminate.
  - vm_compute. reflexivity.
  - vm_compute. reflexivity.
  - vm_compute. intros H. discriminate.
Qed.

(* ------------------------------------------------------------------ *)
(** ** Key offset and velocity                                         *)
(* ------------------------------------------------------------------ *)

Lemma note_translation_ok (cfg : Organ.config) (p : Z) (v : option Z) (d t : Q) :
  let n := (p + Organ.ORGAN_KEY_OFFSET cfg)%Z in
  let chan := (Organ.ORGAN_CHANNEL cfg - 1)%Z in
  (0 <= n <= 127)%Z ->
  (0 <= chan <= 15)%Z ->
  match v with Some x => (0 <= x <= 127)%Z | None => True end ->
  Organ.note_to_midi_events cfg (Note p v d) t =
  Ok ([ {| Organ.type := Organ.note_on; Organ.note := n;
           Organ.velocity := Organ.compute_velocity v;
           Organ.channel := chan; Organ.time := t |};
        {| Organ.type := Organ.note_off; Organ.note := n;
           Organ.velocity := 0;
           Organ.channel := chan; Organ.time := (d * 1000)%Q |} ], d).
Proof.
  intros n chan Hn Hc Hv. unfold Organ.note_to_midi_events.
  assert (Hcb : Organ.channel_ok chan = true).
  { unfold Organ.channel_ok. apply andb_true_iff. rewrite !Z.leb_le. lia. }
  fold n. fold chan.
  rewrite !mido_Message_ok; auto using compute_velocity_byte.
  - now apply data_byte_iff.
  - now apply data_byte_iff.
Qed.

(** C5, as the code has it.  The pitch of the messages of a note is its
    pitch plus [ORGAN_KEY_OFFSET].  When that sum is a MIDI data byte
    (0..127) the translation returns the note-on and the note-off, whatever
    the sign of the duration; when it is not, the message constructor raises
    [ValueError] and so does the translation. *)
Theorem C5_key_offset
    (cfg : Organ.config) (p : Z) (v : option Z) (d t : Q) :
  let n := (p + Organ.ORGAN_KEY_OFFSET cfg)%Z in
  let chan := (Organ.ORGAN_CHANNEL cfg - 1)%Z in
  ((0 <= n <= 127)%Z ->
   (0 <= chan <= 15)%Z ->
   match v with Some x => (0 <= x <= 127)%Z | None => True end ->
   Organ.note_to_midi_events cfg (Note p v d) t =
   Ok ([ {| Organ.type := Organ.note_on; Organ.note := n;
            Organ.velocity := Organ.compute_velocity v;
            Organ.channel := chan; Organ.time := t |};
         {| Organ.type := Organ.note_off; Organ.note := n;
            Organ.velocity := 0;
            Organ.channel := chan; Organ.time := (d * 1000)%Q |} ], d)) /\
  (~ (0 <= n <= 127)%Z ->
   Organ.note_to_midi_events cfg (Note p v d) t = Raise ValueError).
Proof.
  intros n chan. split.
  - intros Hn Hc Hv. now apply note_translation_ok.
  - intros Hn. unfold Organ.note_to_midi_events. fold n. fold chan.
    rewrite mido_Message_bad_note; [reflexivity|].
    destruct (Organ.data_byte n) eqn:E; [|reflexivity].
    apply data_byte_iff in E. contradiction.
Qed.

(** Pitch 60 with key offset +5 is sent as pitch 65; pitch 125 with key
    offset +5 raises. *)
Lemma C5_key_offset_witness :
  Organ.note_to_midi_events Sample.up_a_fourth (Note 60 None 1) 0 =
    Ok ([ {| Organ.type := Organ.note_on; Organ.note := 65; Organ.velocity := 64;
             Organ.channel := 0; Organ.time := 0 |};
          {| Organ.type := Organ.note_off; Organ.note := 65; Organ.velocity := 0;
             Organ.channel := 0; Organ.time := (1 * 1000)%Q |} ], 1) /\
  Organ.note_to_midi_events Sample.up_a_fourth (Note 125 None 1) 0 = Raise ValueError.
Proof.
  split.
  - apply (proj1 (C5_key_offset Sample.up_a_fourth 60 None 1 0)); simpl;
      first [lia | exact I].
  - apply (proj2 (C5_key_offset Sample.up_a_fourth 125 None 1 0)). simpl. lia.
Defined.

(** C5 as stated fails: a note of negative duration is translated, to two
    messages, without any error. *)
Lemma C5_negative_duration_counterexample :
  -1 < 0 /\
  exists on off,
    Organ.note_to_midi_events Organ.default_config (Note 60 None (-1)) 0
    = Ok ([on; off], -1).
Proof.
  split; [reflexivity|]. eexists. eexists. vm_compute. reflexivity.
Qed.

Lemma extends_refl w : extends w w.
Proof. exists []. unfold adds. now rewrite app_nil_r. Qed.

Lemma extends_trans w1 w2 w3 : extends w1 w2 -> extends w2 w3 -> extends w1 w3.
Proof. intros [l1 H1] [l2 H2]. exists (l1 ++ l2). eapply adds_trans; eassumption. Qed.

Lemma sleep_extends t w r w' : sleep t w = (r, w') -> extends w w'.
Proof.
  intros E. exists []. unfold adds. rewrite app_nil_r.
  apply sleep_inv in E as [(_ & _ & _ & C & _)|[_ ->]]; auto.
Qed.

Lemma issue_extends fails c w r w' : issue fails c w = (r, w') -> extends w w'.
Proof. intros E. apply issue_inv in E as (_ & C & _). now exists [(now w, c)]. Qed.

Lemma bind_rel {W A B} (P : W -> W -> Prop) (m : M W A) (k : A -> M W B) :
  (forall w1 w2 w3, P w1 w2 -> P w2 w3 -> P w1 w3) ->
  (forall w r w', m w = (r, w') -> P w w') ->
  (forall a w r w', k a w = (r, w') -> P w w') ->
  forall w r w', bind m k w = (r, w') -> P w w'.
Proof.
  intros Ht Hm Hk w r w' E.
  apply bind_inv in E as [(a & w1 & E1 & E2) | (e & E1 & _)]; eauto.
Qed.

Lemma send_step_extends fails msg w r w' :
  (Organ.send fails msg ;; sleep (Organ.time msg / 1000)) w = (r, w') ->
  extends w w'.
Proof.
  apply bind_rel.
  - apply extends_trans.
  - intros w0 r0 w0'. unfold Organ.send. destruct (Organ.type msg); apply issue_extends.
  - intros _ w0 r0 w0'. apply sleep_extends.
Qed.

(** C10.  A note whose explicit velocity is 0 is translated with velocity
    64, the default, and that is what the backend is called with; an
    explicit velocity other than 0 is kept, and an absent one is 64. *)
Theorem C10_velocity_zero_is_default
    (cfg : Organ.config) (p : Z) (d : Q) :
  let n := (p + Organ.ORGAN_KEY_OFFSET cfg)%Z in
  let chan := (Organ.ORGAN_CHANNEL cfg - 1)%Z in
  (0 <= n <= 127)%Z ->
  (0 <= chan <= 15)%Z ->
  (forall t,
     Organ.note_to_midi_events cfg (Note p (Some 0%Z) d) t =
     Ok ([ {| Organ.type := Organ.note_on; Organ.note := n; Organ.velocity := 64;
              Organ.channel := chan; Organ.time := t |};
           {| Organ.type := Organ.note_off; Organ.note := n; Organ.velocity := 0;
              Organ.channel := chan; Organ.time := (d * 1000)%Q |} ], d)) /\
  (forall fails w r w',
     Organ.playback_step fails cfg (Note p (Some 0%Z) d) w = (r, w') ->
     exists later, calls w' = calls w ++ (now w, NoteOn chan n 64) :: later) /\
  (forall v t, (0 < v <= 127)%Z ->
     exists on off,
       Organ.note_to_midi_events cfg (Note p (Some v) d) t = Ok ([on; off], d) /\
       Organ.velocity on = v) /\
  (forall t,
     exists on off,
       Organ.note_to_midi_events cfg (Note p None d) t = Ok ([on; off], d) /\
       Organ.velocity on = 64%Z).
Proof.
  intros n chan Hn Hc.
  assert (H0 : forall t,
     Organ.note_to_midi_events cfg (Note p (Some 0%Z) d) t =
     Ok ([ {| Organ.type := Organ.note_on; Organ.note := n; Organ.velocity := 64;
              Organ.channel := chan; Organ.time := t |};
           {| Organ.type := Organ.note_off; Organ.note := n; Organ.velocity := 0;
              Organ.channel := chan; Organ.time := (d * 1000)%Q |} ], d)).
  { intros t. apply (@note_translation_ok cfg p (Some 0%Z) d t); simpl; lia. }
  split; [exact H0|]. split; [|split].
  - intros fails w r w' E. unfold Organ.playback_step in E.
    erewrite bind_ok in E by (unfold lift; rewrite H0; reflexivity).
    cbv beta iota in E. simpl for_each in E.
    apply bind_inv in E as [([] & w1 & E1 & E2) | (e & E1 & _)].
    + assert (X : extends w1 w').
      { revert E2. apply bind_rel.
        - apply extends_trans.
        - intros ? ? ?. apply send_step_extends.
        - intros _ ? ? ? H. inversion H. apply extends_refl. }
      destruct X as [l2 X]. unfold adds in X.
      apply bind_inv_ok in E1 as ([] & wa & Ea & Eb).
      unfold Organ.send in Ea. simpl in Ea.
      apply issue_inv in Ea as (_ & Ca & _).
      apply sleep_inv in Eb as [(_ & _ & _ & Cb & _)|[? _]]; [|discriminate].
      exists l2. rewrite X, Cb, Ca, <- app_assoc. reflexivity.
    + apply bind_inv in E1 as [([] & wa & Ea & Eb) | (e0 & Ea & _)].
      * unfold Organ.send in Ea. simpl in Ea.
        apply issue_inv in Ea as (_ & Ca & _).
        apply sleep_inv in Eb as [[? _]|[_ ->]]; [discriminate|].
        exists []. exact Ca.
      * unfold Organ.send in Ea. simpl in Ea.
        apply issue_inv in Ea as (_ & Ca & _).
        exists []. exact Ca.
  - intros v t Hv. do 2 eexists. split.
    + apply (@note_translation_ok cfg p (Some v) d t); simpl; lia.
    + simpl. destruct (Z.eqb_spec v 0); [lia | reflexivity].
  - intros t. do 2 eexists. split.
    + apply (@note_translation_ok cfg p None d t); simpl; auto.
    + reflexivity.
Qed.

Lemma C10_velocity_zero_is_default_witness :
  let run := Organ.playback_step Sample.sound Organ.default_config
               (Note 60 (Some 0%Z) 1) initial in
  exists later, calls (snd run) = calls initial ++ (now initial, NoteOn 0 60 64) :: later.
Proof.
  intros run.
  destruct (@C10_velocity_zero_is_default Organ.default_config 60 1)
    as (_ & H & _); [simpl; lia | simpl; lia |].
  apply (H Sample.sound initial (fst run) (snd run)).
  vm_compute. reflexivity.
Defined.

(* ------------------------------------------------------------------ *)
(** ** The converter: overwriting                                      *)
(* ------------------------------------------------------------------ *)

Lemma converter_print_frame l w r w' :
  Converter.print l w = (r, w') ->
  r = Ok tt /\ Converter.written w' = Converter.written w /\
  Converter.files w' = Converter.files w.
Proof. intros H; inversion H; subst; auto. Qed.

(** The conversion proper writes nothing or the one output file. *)
Lemma musicxml_to_midi_writes parses write_fails inp out prog w r w' :
  Converter.musicxml_to_midi parses write_fails inp out prog w = (r, w') ->
  Converter.written w' = Converter.written w \/
  Converter.written w' = Converter.written w ++ [out].
Proof.
  unfold Converter.musicxml_to_midi. intros E.
  apply bind_inv in E as [([] & w1 & E1 & E) | (e & E1 & _)].
  2:{ left. destruct (parses inp); inversion E1; reflexivity. }
  assert (w1 = w) by (destruct (parses inp); inversion E1; reflexivity). subst w1.
  apply bind_inv in E as [([] & w2 & E2 & E) | (e & E2 & _)].
  2:{ left. destruct prog as [n|]; [destruct (_ && _)|]; inversion E2; reflexivity. }
  assert (w2 = w).
  { destruct prog as [n|]; [destruct (_ && _)|]; inversion E2; reflexivity. }
  subst w2. right.
  unfold Converter.try_except, Converter.score_write in E.
  destruct (write_fails out); inversion E; reflexivity.
Qed.

(** C8.  When the output path exists at the start, [main] writes to it only
    after reading the answer "y" (in either case) from standard input, and
    it writes nowhere else.  With nothing to read on standard input it writes
    nothing, leaves the disk as it was and does not end normally: it ends on
    the [EOFError] of [input] once the input file is found. *)
Theorem C8_overwrite_needs_confirmation
    (parses write_fails : Converter.path -> bool)
    (args : Converter.arguments) (out : Converter.path)
    (w w' : Converter.world) (r : result unit) :
  Converter.output_midi args = Some out ->
  Converter.lookup out w <> None ->
  Converter.main parses write_fails args w = (r, w') ->
  (Converter.written w' = Converter.written w \/
   (Converter.written w' = Converter.written w ++ [out] /\
    exists answer rest,
      Converter.stdin w = answer :: rest /\ Str.lower answer = "y"%string)) /\
  (Converter.stdin w = [] ->
   Converter.written w' = Converter.written w /\
   Converter.files w' = Converter.files w /\
   r <> Ok tt /\
   (forall inp, Converter.input_xml args = Some inp ->
                Converter.lookup inp w = Some Converter.RegularFile ->
                r = Raise EOFError)).
Proof.
  intros Hout Hex E. unfold Converter.main in E. rewrite Hout in E.
  destruct (Converter.input_xml args) as [inp|] eqn:Hin.
  2:{ inversion E; subst. split; [now left|]. intros _.
      repeat split; try discriminate. }
  unfold Converter.is_file, Converter.exists_ in E.
  unfold bind at 1 in E.
  destruct (Converter.lookup inp w) as [[|]|] eqn:Hfile.
  2,3: cbv [bind raise] in E; inversion E; subst; split; [now left|]; intros _;
       repeat split; try discriminate;
       intros inp0 [= <-] H0; congruence.
  unfold bind at 1 in E. unfold ret at 1 in E.
  unfold bind at 1 in E.
  destruct (Converter.lookup out w) as [k|] eqn:Ek; [|congruence].
  unfold bind at 1 in E. unfold bind at 1 in E. unfold Converter.input at 1 in E.
  destruct (Converter.stdin w) as [|answer rest] eqn:Es.
  - inversion E; subst. simpl. split; [now left|]. intros _.
    repeat split; try discriminate.
  - split; [|discriminate].
    destruct (String.eqb (Str.lower answer) "y") eqn:Ey.
    + apply String.eqb_eq in Ey. unfold ret at 1 in E.
      unfold Converter.try_except in E.
      match type of E with
      | match ?run with _ => _ end = _ => destruct run as [[[]|e] w2] eqn:Erun
      end.
      * inversion E; subst.
        apply bind_inv_ok in Erun as ([] & w3 & E3 & E4).
        apply musicxml_to_midi_writes in E3.
        apply converter_print_frame in E4 as (_ & -> & _).
        simpl in E3. destruct E3 as [->| ->]; [now left|]. right. eauto.
      * apply bind_inv in Erun as [([] & w3 & E3 & E4) | (e' & E3 & _)].
        { inversion E4. }
        apply musicxml_to_midi_writes in E3. simpl in E3.
        assert (Hw : Converter.written w' = Converter.written w2).
        { destruct e; try (inversion E; subst; reflexivity);
            unfold bind, Converter.print in E; simpl in E; inversion E; reflexivity. }
        rewrite Hw. destruct E3 as [->| ->]; [now left|]. right. eauto.
    + left. unfold bind, Converter.print in E. simpl in E. inversion E. reflexivity.
Qed.

(** With the answer "Y" the existing file is overwritten; with no input
    the run ends on [EOFError] and nothing was written. *)
Lemma C8_overwrite_needs_confirmation_witness :
  let yes := Converter.main (fun _ => true) (fun _ => false)
               Sample.convert_hymn (Sample.at_prompt ["Y"%string]) in
  let eof := Converter.main (fun _ => true) (fun _ => false)
               Sample.convert_hymn (Sample.at_prompt []) in
  Converter.written (snd yes) = ["hymn.mid"%string] /\
  fst eof = Raise EOFError /\ Converter.written (snd eof) = [].
Proof.
  intros yes eof.
  destruct (@C8_overwrite_needs_confirmation (fun _ => true) (fun _ => false)
              Sample.convert_hymn "hymn.mid"%string
              (Sample.at_prompt []) (snd eof) (fst eof))
    as [_ H]; try (vm_compute; reflexivity); try (vm_compute; discriminate).
  split; [vm_compute; reflexivity|].
  destruct H as (H1 & _ & _ & H2); [reflexivity|]. split; [|exact H1].
  apply (H2 "hymn.xml"%string); vm_compute; reflexivity.
Defined.

(* ------------------------------------------------------------------ *)
(** ** The scraper: the delay between requests                         *)
(* ------------------------------------------------------------------ *)

(** C9 on the code.  Two hymns, each with a PDF, the server answering in
    0.2 s: four requests are sent.  The two page fetches are 1.5 s apart, as
    [safe_sleep] arranges; each download is sent 0.2 s after the fetch of its
    page, and the second fetch 1.3 s after the first download: both less than
    [MIN_DELAY]. *)
Theorem C9_download_is_not_delayed :
  let run := Scraper.main Sample.imslp Sample.fifth_of_a_second Sample.join_urls
               [ "Amazing Grace"; "Rock Of Ages" ]%string Sample.at_noon in
  fst run = Ok tt /\
  map snd (Scraper.requests (snd run)) =
    [ "https://imslp.org/wiki/Amazing_Grace";
      "https://imslp.org/images/a/a1/Amazing_Grace.pdf";
      "https://imslp.org/wiki/Rock_Of_Ages";
      "https://imslp.org/images/r/r2/Rock_Of_Ages.PDF" ]%string /\
  Forall2 Qeq (Scraper.request_times (snd run))
    [ 43200; 43200 + (2 # 10); 43200 + (15 # 10); 43200 + (17 # 10) ] /\
  Scraper.saved (snd run) =
    [ "lutheran_hymn_scores/Amazing_Grace.pdf";
      "lutheran_hymn_scores/Rock_Of_Ages.pdf" ]%string /\
  (exists t1 t2 later,
     Scraper.request_times (snd run) = t1 :: t2 :: later /\
     t2 - t1 < Scraper.MIN_DELAY).
Proof.
  intros run. split; [|split; [|split; [|split]]].
  - vm_compute. reflexivity.
  - vm_compute. reflexivity.
  - vm_compute. repeat constructor.
  - vm_compute. reflexivity.
  - do 3 eexists. split; [vm_compute; reflexivity|]. vm_compute. reflexivity.
Qed.

(* ================================================================== *)
(** * Further properties of the scripts                                *)
(* ================================================================== *)

(* ------------------------------------------------------------------ *)
(** ** The hardware organ: the voice of a chord                        *)
(* ------------------------------------------------------------------ *)

Lemma insert_sorted_perm x xs : Permutation (x :: xs) (Organ.insert_sorted x xs).
Proof.
  induction xs as [|y ys IH]; simpl; [reflexivity|].
  destruct (x <? y)%Z; [reflexivity|].
  rewrite perm_swap. now apply perm_skip.
Qed.

Lemma insert_sorted_sorted x xs :
  StronglySorted Z.le xs -> StronglySorted Z.le (Organ.insert_sorted x xs).
Proof.
  induction 1 as [|y ys Hs IH Hy]; simpl.
  - repeat constructor.
  - destruct (Z.ltb_spec x y) as [Hlt|Hge].
    + constructor; [now constructor|].
      constructor; [lia|]. eapply Forall_impl; [|exact Hy]. intros; lia.
    + constructor; [exact IH|].
      eapply Permutation_Forall; [apply insert_sorted_perm|].
      constructor; assumption.
Qed.

Lemma sorted_perm xs : Permutation xs (Organ.sorted xs).
Proof.
  induction xs as [|x xs IH]; simpl; [reflexivity|].
  rewrite <- insert_sorted_perm. now apply perm_skip.
Qed.

Lemma sorted_sorted xs : StronglySorted Z.le (Organ.sorted xs).
Proof.
  induction xs as [|x xs IH]; simpl; [constructor|].
  now apply insert_sorted_sorted.
Qed.

(** [sorted] sorts: its result is in ascending order and is a
    rearrangement of its argument. *)
Lemma sorted_sorts (xs : list Z) :
  StronglySorted Z.le (Organ.sorted xs) /\ Permutation xs (Organ.sorted xs).
Proof. split; [apply sorted_sorted | apply sorted_perm]. Qed.

Lemma sorted_snoc_max l m :
  StronglySorted Z.le (l ++ [m]) -> forall q, In q l -> (q <= m)%Z.
Proof.
  induction l as [|x l IH]; simpl; intros Hs q Hq; [destruct Hq|].
  inversion Hs as [|? ? Hs' Hall]; subst.
  destruct Hq as [<-|Hq]; [|now apply IH].
  rewrite Forall_forall in Hall. apply Hall. apply in_or_app. right. now left.
Qed.

Lemma last_item_inv xs r :
  Organ.last_item xs = r ->
  (xs = [] /\ r = Raise IndexError) \/ (exists l m, xs = l ++ [m] /\ r = Ok m).
Proof.
  unfold Organ.last_item. intros <-.
  destruct (rev xs) as [|m l] eqn:E.
  - left. split; [|reflexivity].
    rewrite <- (rev_involutive xs), E. reflexivity.
  - right. exists (rev l), m. split; [|reflexivity].
    rewrite <- (rev_involutive xs), E. reflexivity.
Qed.

(** The voice of a chord: the last of its sorted pitches is one of its
    pitches and none is higher. *)
Lemma chord_top ps :
  ps <> [] ->
  exists top, Organ.last_item (Organ.sorted ps) = Ok top /\
              In top ps /\ forall q, In q ps -> (q <= top)%Z.
Proof.
  intros Hne.
  destruct (last_item_inv (Organ.sorted ps) eq_refl)
    as [[Hnil _] | (l & m & Hl & Hm)].
  - exfalso. apply Hne. apply Permutation_nil. rewrite <- Hnil.
    symmetry. apply sorted_perm.
  - exists m. split; [exact Hm|].
    assert (Hin : forall q, In q ps <-> In q (l ++ [m])).
    { intros q. rewrite <- Hl. split; apply Permutation_in;
        [|symmetry]; apply sorted_perm. }
    split.
    + apply Hin. apply in_or_app. right. now left.
    + intros q Hq. apply Hin in Hq. apply in_app_or in Hq as [Hq|[<-|[]]]; [|lia].
      eapply sorted_snoc_max; [|exact Hq]. rewrite <- Hl. apply sorted_sorted.
Qed.

(** X1.  The hardware translation of a chord keeps one voice, the highest:
    a chord with at least one pitch is translated exactly as a note of its
    highest pitch would be, with the same velocity and duration; a chord
    without pitches raises [IndexError]. *)
Theorem X1_chord_is_its_highest_pitch
    (cfg : Organ.config) (ps : list Z) (v : option Z) (d t : Q) :
  (ps = [] -> Organ.note_to_midi_events cfg (Chord ps v d) t = Raise IndexError) /\
  (ps <> [] ->
   exists top,
     In top ps /\ (forall q, In q ps -> (q <= top)%Z) /\
     Organ.note_to_midi_events cfg (Chord ps v d) t =
     Organ.note_to_midi_events cfg (Note top v d) t).
Proof.
  split.
  - intros ->. reflexivity.
  - intros Hne. destruct (chord_top Hne) as (top & Htop & Hin & Hmax).
    exists top. split; [exact Hin|]. split; [exact Hmax|].
    unfold Organ.note_to_midi_events. rewrite Htop. reflexivity.
Qed.

Lemma X1_chord_is_its_highest_pitch_witness :
  Organ.note_to_midi_events Organ.default_config (Chord [64; 60; 67]%Z None 1) 0 =
  Organ.note_to_midi_events Organ.default_config (Note 67 None 1) 0.
Proof.
  destruct (proj2 (X1_chord_is_its_highest_pitch Organ.default_config
                     [64; 60; 67]%Z None 1 0))
    as (top & Hin & Hmax & E); [discriminate|].
  rewrite E. replace top with 67%Z; [reflexivity|].
  assert (H67 : (67 <= top)%Z) by (apply Hmax; simpl; auto).
  simpl in Hin. lia.
Defined.

(* ------------------------------------------------------------------ *)
(** ** The hardware organ: what the loop sends and how long it waits   *)
(* ------------------------------------------------------------------ *)

Lemma compute_velocity_nonzero v : Organ.compute_velocity v <> 0%Z.
Proof.
  destruct v as [n|]; simpl; [|discriminate].
  destruct (Z.eqb_spec n 0); [discriminate | assumption].
Qed.

(** The messages of a translation that returns have passed the checks of
    the message constructor, and the velocity of the note-on is not 0. *)
Lemma note_to_midi_events_checked cfg el t evs dur :
  Organ.note_to_midi_events cfg el t = Ok (evs, dur) ->
  is_rest el = false ->
  exists n v,
    (0 <= n <= 127)%Z /\ (1 <= v <= 127)%Z /\
    evs = [ {| Organ.type := Organ.note_on; Organ.note := n; Organ.velocity := v;
               Organ.channel := (Organ.ORGAN_CHANNEL cfg - 1)%Z; Organ.time := t |};
            {| Organ.type := Organ.note_off; Organ.note := n; Organ.velocity := 0;
               Organ.channel := (Organ.ORGAN_CHANNEL cfg - 1)%Z;
               Organ.time := (dur * 1000)%Q |} ].
Proof.
  assert (Hnote : forall p vel d,
    Organ.note_to_midi_events cfg (Note p vel d) t = Ok (evs, dur) ->
    exists n v,
      (0 <= n <= 127)%Z /\ (1 <= v <= 127)%Z /\
      evs = [ {| Organ.type := Organ.note_on; Organ.note := n; Organ.velocity := v;
                 Organ.channel := (Organ.ORGAN_CHANNEL cfg - 1)%Z; Organ.time := t |};
              {| Organ.type := Organ.note_off; Organ.note := n; Organ.velocity := 0;
                 Organ.channel := (Organ.ORGAN_CHANNEL cfg - 1)%Z;
                 Organ.time := (dur * 1000)%Q |} ]).
  { intros p vel d. unfold Organ.note_to_midi_events.
    destruct (Organ.mido_Message Organ.note_on _ _ _ _) as [on|] eqn:Eon; [|discriminate].
    destruct (Organ.mido_Message Organ.note_off _ _ _ _) as [off|] eqn:Eoff; [|discriminate].
    intros H; inversion H; subst.
    apply mido_Message_inv in Eon as (-> & Hn & Hv & _).
    apply mido_Message_inv in Eoff as (-> & _).
    apply data_byte_iff in Hn. apply data_byte_iff in Hv.
    pose proof (compute_velocity_nonzero vel).
    do 2 eexists. split; [exact Hn|]. split; [|reflexivity]. lia. }
  intros E Hrest. destruct el as [p vel d | ps vel d | d | d]; try discriminate.
  - eapply Hnote; exact E.
  - destruct ps as [|p0 ps'].
    + discriminate.
    + assert (Hne : p0 :: ps' <> []) by discriminate.
      destruct (chord_top Hne) as (top & Htop & _).
      apply (Hnote top vel d). rewrite <- E.
      unfold Organ.note_to_midi_events. rewrite Htop. reflexivity.
Qed.

(** One turn of the hardware loop on a note or a chord that translates,
    the backend not raising. *)
Lemma organ_step_on_note fails cfg el n v dur w :
  (forall k, fails k = false) ->
  0 <= dur ->
  Organ.note_to_midi_events cfg el 0 =
    Ok ([ {| Organ.type := Organ.note_on; Organ.note := n; Organ.velocity := v;
             Organ.channel := (Organ.ORGAN_CHANNEL cfg - 1)%Z; Organ.time := 0 |};
          {| Organ.type := Organ.note_off; Organ.note := n; Organ.velocity := 0;
             Organ.channel := (Organ.ORGAN_CHANNEL cfg - 1)%Z;
             Organ.time := (dur * 1000)%Q |} ], dur) ->
  let chan := (Organ.ORGAN_CHANNEL cfg - 1)%Z in
  let t := (now w + 0 / 1000)%Q in
  Organ.playback_step fails cfg el w =
  (Ok tt, {| now := (t + dur * 1000 / 1000)%Q;
             calls := calls w ++ [(now w, NoteOn chan n v); (t, NoteOff chan n)];
             sleeps := sleeps w ++ [(0 / 1000)%Q; (dur * 1000 / 1000)%Q];
             current_offset := current_offset w;
             started := started w |}).
Proof.
  intros Hf Hd E chan t. unfold Organ.playback_step.
  erewrite bind_ok by (unfold lift; rewrite E; reflexivity).
  cbv beta iota. simpl for_each. unfold Organ.send. simpl Organ.type.
  cbv beta iota. simpl Organ.channel. simpl Organ.note. simpl Organ.velocity.
  simpl Organ.time. unfold noteon, noteoff.
  assert (H0 : 0 <= 0 / 1000) by (vm_compute; discriminate).
  assert (Hd' : 0 <= dur * 1000 / 1000).
  { setoid_replace (dur * 1000 / 1000) with dur by field. exact Hd. }
  unfold bind at 1. unfold bind at 1. rewrite issue_ok by exact Hf.
  rewrite sleep_ok by exact H0. simpl.
  unfold bind at 1. unfold bind at 1. rewrite issue_ok by exact Hf. simpl.
  rewrite sleep_ok by exact Hd'. simpl.
  unfold ret. rewrite <- !app_assoc. reflexivity.
Qed.

(** X2.  One turn of the hardware loop on a note or chord that translates
    to pitch [n], with a backend that does not raise: the note-on and the
    note-off are sent one after the other at the same instant, and only then
    does the loop wait, for as many seconds as the element has quarter
    lengths. *)
Theorem X2_organ_note_off_follows_at_once
    (fails : nat -> bool) (cfg : Organ.config) (el : element)
    (evs : list Organ.Message) (dur : Q) (w : world) :
  (forall k, fails k = false) ->
  is_rest el = false ->
  0 <= dur ->
  Organ.note_to_midi_events cfg el 0 = Ok (evs, dur) ->
  exists n v t w',
    Organ.playback_step fails cfg el w = (Ok tt, w') /\
    calls w' = calls w ++ [ (now w, NoteOn (Organ.ORGAN_CHANNEL cfg - 1) n v);
                            (t, NoteOff (Organ.ORGAN_CHANNEL cfg - 1) n) ] /\
    t == now w /\
    now w' == now w + dur /\
    dur = quarterLength el.
Proof.
  intros Hf Hrest Hd E.
  pose proof E as E'. apply note_to_midi_events_checked in E' as (n & v & _ & _ & ->);
    [|exact Hrest].
  pose proof E as E''. apply note_to_midi_events_inv in E'' as [Hdur _].
  exists n, v, (now w + 0 / 1000)%Q. eexists. split.
  - apply organ_step_on_note; eassumption.
  - simpl. split; [reflexivity|]. split; [field|]. split; [field | exact Hdur].
Qed.

Lemma X2_organ_note_off_follows_at_once_witness :
  exists n v t w',
    Organ.playback_step Sample.sound Organ.default_config (Note 60 None 2) initial
      = (Ok tt, w') /\
    calls w' = calls initial ++ [ (now initial, NoteOn (1 - 1) n v);
                                  (t, NoteOff (1 - 1) n) ] /\
    t == now initial /\
    now w' == now initial + 2 /\
    2 = quarterLength (Note 60 None 2).
Proof.
  eapply (@X2_organ_note_off_follows_at_once Sample.sound Organ.default_config
            (Note 60 None 2) _ 2 initial).
  - reflexivity.
  - reflexivity.
  - vm_compute. discriminate.
  - vm_compute. reflexivity.
Defined.

Lemma organ_step_time fails cfg el w w' :
  Organ.playback_step fails cfg el w = (Ok tt, w') ->
  now w' == now w + Observe.organ_wait cfg el.
Proof.
  unfold Organ.playback_step. intros E.
  apply bind_inv_ok in E as ([evs dur] & w1 & E1 & E).
  unfold lift in E1. inversion E1 as [[Ev Hw]]. subst w1.
  pose proof Ev as Ev'.
  apply note_to_midi_events_inv in Ev' as (Hdur & [(Hrest & ->) | (Hrest & n & v & ->)]).
  - apply sleep_inv in E as [(_ & _ & N & _)|[? _]]; [|discriminate].
    rewrite N. destruct el; try discriminate. simpl in *. subst dur. reflexivity.
  - simpl in E.
    apply bind_inv_ok in E as ([] & w2 & E2 & E).
    apply bind_inv_ok in E2 as ([] & w3 & E3 & E4).
    apply bind_inv_ok in E as ([] & w5 & E5 & E).
    apply bind_inv_ok in E5 as ([] & w6 & E6 & E7).
    inversion E; subst w5. clear E.
    unfold Organ.send in E3, E6. simpl in E3, E6.
    apply issue_inv in E3 as (N3 & _).
    apply sleep_inv in E4 as [(_ & _ & N4 & _)|[? _]]; [|discriminate].
    apply issue_inv in E6 as (N6 & _).
    apply sleep_inv in E7 as [(_ & _ & N7 & _)|[? _]]; [|discriminate].
    rewrite N7, N6, N4, N3. simpl.
    assert (Hw : Observe.organ_wait cfg el = dur).
    { destruct el; simpl in *; try discriminate; congruence. }
    rewrite Hw. field.
Qed.

(** X3.  A run of the hardware loop that ends without an exception has
    waited one second per quarter length of every note and chord, and
    [TIME_RESOLUTION] seconds per quarter length of every rest: the tempo of
    the score has no part in it. *)
Theorem X3_organ_playback_time
    (fails : nat -> bool) (cfg : Organ.config) (sc : score) (w w' : world) :
  Organ.playback fails cfg sc w = (Ok tt, w') ->
  now w' == now w + total (map (Observe.organ_wait cfg) (notesAndRests (flat sc))).
Proof.
  unfold Organ.playback. intros E.
  apply bind_inv_ok in E as (ms & w1 & E1 & E).
  unfold lift in E1. inversion E1; subst w1. clear E1.
  revert w w' E. induction (notesAndRests (flat sc)) as [|el els IH]; intros w w' E.
  - inversion E; subst. simpl. ring.
  - simpl in E. apply bind_inv_ok in E as ([] & w1 & E1 & E2).
    apply organ_step_time in E1. apply IH in E2.
    rewrite E2, E1. simpl. ring.
Qed.

(** The scenario on the hardware organ lasts 2.05 s: 1 + 0.05 + 1. *)
Lemma X3_organ_playback_time_witness :
  let run := Organ.playback Sample.sound Organ.default_config Sample.scenario initial in
  now (snd run) == now initial
                   + total (map (Observe.organ_wait Organ.default_config)
                              (notesAndRests (flat Sample.scenario))) /\
  now (snd run) == 205 # 100.
Proof.
  intros run. split.
  - apply (@X3_organ_playback_time Sample.sound Organ.default_config
             Sample.scenario initial (snd run)).
    vm_compute. reflexivity.
  - vm_compute. reflexivity.
Defined.

(** X4.  The tempo marking of the score is read and then used nowhere by
    the hardware script: a first marking of 0 BPM raises
    [ZeroDivisionError] before anything is played, and with any other first
    marking the run is the run of the same score without tempo markings. *)
Theorem X4_organ_tempo_is_unused
    (fails : nat -> bool) (cfg : Organ.config) (sc : score) (w : world) :
  (forall m rest, metronomeMarkBoundaries sc = m :: rest -> number m == 0 ->
     Organ.playback fails cfg sc w = (Raise ZeroDivisionError, w)) /\
  ((forall m rest, metronomeMarkBoundaries sc = m :: rest -> ~ number m == 0) ->
     Organ.playback fails cfg sc w =
     Organ.playback fails cfg {| metronomeMarkBoundaries := []; flat := flat sc |} w).
Proof.
  split.
  - intros m rest Hm H0. unfold Organ.playback, Organ.ms_per_quarter.
    rewrite Hm. unfold bind, lift. now rewrite truediv_zero.
  - intros Hm. unfold Organ.playback, Organ.ms_per_quarter. simpl.
    destruct (metronomeMarkBoundaries sc) as [|m rest] eqn:E; [reflexivity|].
    unfold bind, lift. rewrite truediv_ok by (eapply Hm; reflexivity).
    reflexivity.
Qed.

Lemma X4_organ_tempo_is_unused_witness :
  Organ.playback Sample.sound Organ.default_config Sample.score_at_90 initial =
  Organ.playback Sample.sound Organ.default_config
    {| metronomeMarkBoundaries := []; flat := flat Sample.score_at_90 |} initial.
Proof.
  apply (proj2 (X4_organ_tempo_is_unused Sample.sound Organ.default_config
                  Sample.score_at_90 initial)).
  intros m rest H. inversion H; subst. vm_compute. discriminate.
Defined.

Lemma adds_only_refl P w : Observe.adds_only P w w.
Proof. exists []. split; [unfold adds; now rewrite app_nil_r | constructor]. Qed.

Lemma adds_only_trans P w1 w2 w3 :
  Observe.adds_only P w1 w2 -> Observe.adds_only P w2 w3 -> Observe.adds_only P w1 w3.
Proof.
  intros (l1 & A1 & F1) (l2 & A2 & F2). exists (l1 ++ l2). split.
  - eapply adds_trans; eassumption.
  - apply Forall_app. now split.
Qed.

Lemma sleep_adds_only P t w r w' : sleep t w = (r, w') -> Observe.adds_only P w w'.
Proof.
  intros E. exists []. split; [|constructor]. unfold adds. rewrite app_nil_r.
  apply sleep_inv in E as [(_ & _ & _ & C & _)|[_ ->]]; auto.
Qed.

Lemma issue_adds_only (P : call -> Prop) fails c w r w' :
  P c -> issue fails c w = (r, w') -> Observe.adds_only P w w'.
Proof.
  intros Hc E. apply issue_inv in E as (_ & C & _).
  exists [(now w, c)]. split; [exact C | now repeat constructor].
Qed.

Lemma organ_step_calls fails cfg el w r w' :
  Organ.playback_step fails cfg el w = (r, w') ->
  Observe.adds_only (Observe.organ_call (Organ.ORGAN_CHANNEL cfg - 1)) w w'.
Proof.
  set (P := Observe.organ_call (Organ.ORGAN_CHANNEL cfg - 1)).
  unfold Organ.playback_step. intros E.
  apply bind_inv in E as [([evs dur] & w1 & E1 & E) | (e & E1 & _)].
  2:{ unfold lift in E1. inversion E1; subst. apply adds_only_refl. }
  unfold lift in E1. inversion E1 as [[Ev Hw]]. subst w1.
  destruct (is_rest el) eqn:Hrest.
  - apply note_to_midi_events_inv in Ev as (_ & [(_ & ->) | (Hr & _)]); [|congruence].
    eapply sleep_adds_only; exact E.
  - apply note_to_midi_events_checked in Ev as (n & v & Hn & Hv & ->); [|exact Hrest].
    revert E. apply (@for_each_preserves world Organ.Message (Observe.adds_only P)).
    + apply adds_only_refl.
    + apply adds_only_trans.
    + intros msg w0 r0 w0' Hin. apply bind_rel.
      * apply adds_only_trans.
      * intros w2 r2 w2'. unfold Organ.send.
        destruct Hin as [<-|[<-|[]]]; simpl; apply issue_adds_only;
          unfold P; simpl; auto.
      * intros _ w2 r2 w2'. apply sleep_adds_only.
Qed.

(** X5.  Whatever the score and however the run ends, every call the
    hardware loop makes is on channel [ORGAN_CHANNEL - 1] with a pitch in
    0..127, and every note-on has a velocity in 1..127: a note-on with
    velocity 0 is never sent. *)
Theorem X5_organ_calls_are_valid
    (fails : nat -> bool) (cfg : Organ.config) (sc : score)
    (w w' : world) (r : result unit) :
  Organ.playback fails cfg sc w = (r, w') ->
  exists l,
    calls w' = calls w ++ l /\
    Forall (fun tc => Observe.organ_call (Organ.ORGAN_CHANNEL cfg - 1) (snd tc)) l.
Proof.
  unfold Organ.playback. intros E.
  apply bind_inv in E as [(ms & w1 & E1 & E) | (e & E1 & _)].
  2:{ unfold lift in E1. inversion E1; subst. apply adds_only_refl. }
  unfold lift in E1. inversion E1; subst w1. clear E1.
  revert E. apply (@for_each_preserves world element
    (Observe.adds_only (Observe.organ_call (Organ.ORGAN_CHANNEL cfg - 1)))).
  - apply adds_only_refl.
  - apply adds_only_trans.
  - intros el w0 r0 w0' _. apply organ_step_calls.
Qed.

Lemma X5_organ_calls_are_valid_witness :
  let run := Organ.playback (Sample.breaks_at 3) Organ.default_config
               Sample.scenario initial in
  exists l,
    calls (snd run) = calls initial ++ l /\
    Forall (fun tc => Observe.organ_call (1 - 1) (snd tc)) l.
Proof.
  intros run.
  apply (@X5_organ_calls_are_valid (Sample.breaks_at 3) Organ.default_config
           Sample.scenario initial (snd run) (fst run)).
  vm_compute. reflexivity.
Defined.

(** X6.  The hardware loop stops at the first element it cannot translate:
    when the elements before it have been played, the exception of the
    translation ends the run, nothing is sent or slept for that element, and
    no later element is played. *)
Theorem X6_organ_stops_at_first_error
    (fails : nat -> bool) (cfg : Organ.config) (sc : score)
    (played later : list element) (el : element) (e : exn) (ms : Q) (w w1 : world) :
  Organ.ms_per_quarter sc = Ok ms ->
  notesAndRests (flat sc) = played ++ el :: later ->
  for_each played (Organ.playback_step fails cfg) w = (Ok tt, w1) ->
  Organ.note_to_midi_events cfg el 0 = Raise e ->
  Organ.playback fails cfg sc w = (Raise e, w1).
Proof.
  intros Hms Hsplit Hplayed Hel. unfold Organ.playback.
  erewrite bind_ok by (unfold lift; rewrite Hms; reflexivity).
  rewrite Hsplit, for_each_app. erewrite bind_ok by exact Hplayed.
  simpl. apply bind_raise. unfold Organ.playback_step.
  apply bind_raise. unfold lift. now rewrite Hel.
Qed.

(** Of three notes with the second at pitch 130, only the first sounds. *)
Lemma X6_organ_stops_at_first_error_witness :
  let run := Organ.playback Sample.sound Organ.default_config Sample.too_high initial in
  fst run = Raise ValueError /\
  map snd (calls (snd run)) = [NoteOn 0 60 64; NoteOff 0 60].
Proof.
  intros run.
  pose proof (@X6_organ_stops_at_first_error Sample.sound Organ.default_config
                Sample.too_high [Note 60 None 1] [Note 62 None 1] (Note 130 None 1)
                ValueError (60000 / 120)%Q initial
                (snd (Organ.playback_step Sample.sound Organ.default_config
                        (Note 60 None 1) initial))) as H.
  subst run. rewrite H.
  - split; vm_compute; reflexivity.
  - vm_compute. reflexivity.
  - vm_compute. reflexivity.
  - vm_compute. reflexivity.
  - vm_compute. reflexivity.
Defined.

(* ------------------------------------------------------------------ *)
(** ** The virtual organ: what a run sends and how long it lasts       *)
(* ------------------------------------------------------------------ *)

(** What [play_element] has done when it returns from a note or a chord. *)
Lemma play_element_ok_inv fails bpm el off w w' :
  VirtualOrgan.play_element fails bpm el off w = (Ok tt, w') ->
  (is_note el || is_chord el) = true ->
  let t1 := (now w + off)%Q in
  let len := (quarterLength el * (60 / bpm))%Q in
  let t2 := (t1 + len)%Q in
  now w' = t2 /\
  calls w' = calls w
             ++ map (fun p => (t1, NoteOn 0 p 127)) (Observe.pitches_of el)
             ++ map (fun p => (t2, NoteOff 0 p)) (Observe.pitches_of el) /\
  sleeps w' = sleeps w ++ [off; len] /\
  ~ bpm == 0 /\ 0 <= off /\ 0 <= len.
Proof.
  intros E Hel t1 len t2. unfold VirtualOrgan.play_element in E.
  apply bind_inv_ok in E as ([] & w1 & E1 & E).
  apply bind_inv_ok in E as ([] & w2 & E2 & E).
  inversion E1; subst w1. clear E1.
  apply sleep_inv in E2 as [(_ & Hoff & N2 & C2 & S2 & _)|[? _]]; [|discriminate].
  simpl in N2, C2, S2.
  destruct el as [p v d | ps v d | d | d]; try discriminate.
  - apply bind_inv_ok in E as ([] & w3 & E3 & E).
    apply bind_inv_ok in E as (spq & w4 & E4 & E).
    apply bind_inv_ok in E as ([] & w5 & E5 & E6).
    unfold lift in E4. inversion E4 as [[Hd Hw]]. subst w4.
    apply truediv_inv in Hd as [Hbpm ->].
    apply issue_inv in E3 as (N3 & C3 & S3 & _).
    apply sleep_inv in E5 as [(_ & Hlen & N5 & C5 & S5 & _)|[? _]]; [|discriminate].
    apply issue_inv in E6 as (N6 & C6 & S6 & _).
    subst t1 len t2. simpl.
    rewrite N6, C6, S6, N5, C5, S5, N3, C3, S3, N2, C2, S2, <- !app_assoc.
    simpl. repeat split; auto.
  - apply bind_inv_ok in E as ([] & w3 & E3 & E).
    apply bind_inv_ok in E as (spq & w4 & E4 & E).
    apply bind_inv_ok in E as ([] & w5 & E5 & E6).
    unfold lift in E4. inversion E4 as [[Hd Hw]]. subst w4.
    apply truediv_inv in Hd as [Hbpm ->].
    apply for_each_issue_inv in E3 as (k3 & _ & C3 & N3 & S3 & _ & _ & K3 & _).
    apply sleep_inv in E5 as [(_ & Hlen & N5 & C5 & S5 & _)|[? _]]; [|discriminate].
    apply for_each_issue_inv in E6 as (k6 & _ & C6 & N6 & S6 & _ & _ & K6 & _).
    rewrite (K3 eq_refl), firstn_all in C3. rewrite (K6 eq_refl), firstn_all in C6.
    subst t1 len t2. simpl.
    rewrite N6, C6, S6, N5, C5, S5, N3, C3, S3, N2, C2, S2, <- !app_assoc.
    simpl. repeat split; auto.
Qed.

(** X7.  A note on the virtual organ, the backend not raising:
    [play_element] waits the start offset, turns the pitch on at full
    velocity on channel 0, waits the quarter length times 60 / BPM, and turns
    it off; it sleeps exactly these two lengths. *)
Theorem X7_note_on_virtual_organ
    (fails : nat -> bool) (bpm : Q) (p : Z) (v : option Z)
    (d time_offset : Q) (w : world) :
  (forall n, fails n = false) ->
  0 <= time_offset ->
  ~ bpm == 0 ->
  0 <= d * (60 / bpm) ->
  let start := (now w + time_offset)%Q in
  let stop := (start + d * (60 / bpm))%Q in
  VirtualOrgan.play_element fails bpm (Note p v d) time_offset w =
  (Ok tt, {| now := stop;
             calls := calls w ++ [(start, NoteOn 0 p 127); (stop, NoteOff 0 p)];
             sleeps := sleeps w ++ [time_offset; (d * (60 / bpm))%Q];
             current_offset := current_offset w;
             started := started w ++ [(Note p v d, time_offset)] |}).
Proof.
  intros Hf Hoff Hbpm Hdur start stop.
  unfold VirtualOrgan.play_element.
  erewrite bind_ok by reflexivity.
  erewrite bind_ok by (apply sleep_ok; exact Hoff).
  erewrite bind_ok by (apply issue_ok; exact Hf).
  erewrite bind_ok by (unfold lift; rewrite (truediv_ok 60 Hbpm); reflexivity).
  erewrite bind_ok by (apply sleep_ok; exact Hdur).
  unfold noteoff. rewrite issue_ok by exact Hf. simpl.
  rewrite <- !app_assoc. reflexivity.
Qed.

Lemma X7_note_on_virtual_organ_witness :
  exists w',
    VirtualOrgan.play_element Sample.sound 120 (Note 60 None 1) (1 # 2) initial
      = (Ok tt, w') /\
    same_calls (calls w') [ (1 # 2, NoteOn 0 60 127); (1, NoteOff 0 60) ] /\
    now w' == 1.
Proof.
  eexists. split.
  - apply (@X7_note_on_virtual_organ Sample.sound 120 60 None 1 (1 # 2) initial).
    + reflexivity.
    + vm_compute. discriminate.
    + vm_compute. discriminate.
    + vm_compute. discriminate.
  - split; [|vm_compute; reflexivity]. vm_compute. repeat constructor.
Defined.

Lemma total_app l1 l2 : total (l1 ++ l2) == total l1 + total l2.
Proof.
  unfold total. induction l1 as [|x l1 IH]; simpl; [ring|]. rewrite IH. ring.
Qed.

Lemma on_pitches_app l1 l2 :
  Observe.on_pitches (l1 ++ l2) = Observe.on_pitches l1 ++ Observe.on_pitches l2.
Proof. unfold Observe.on_pitches. apply flat_map_app. Qed.

Lemma off_pitches_app l1 l2 :
  Observe.off_pitches (l1 ++ l2) = Observe.off_pitches l1 ++ Observe.off_pitches l2.
Proof. unfold Observe.off_pitches. apply flat_map_app. Qed.

Lemma pitches_of_ons (t : Q) ps :
  Observe.on_pitches (map (fun p => (t, NoteOn 0 p 127)) ps) = ps /\
  Observe.off_pitches (map (fun p => (t, NoteOn 0 p 127)) ps) = [].
Proof.
  unfold Observe.on_pitches, Observe.off_pitches.
  induction ps as [|p ps [IH1 IH2]]; simpl; [now split|]. now rewrite IH1, IH2.
Qed.

Lemma pitches_of_offs (t : Q) ps :
  Observe.off_pitches (map (fun p => (t, NoteOff 0 p)) ps) = ps /\
  Observe.on_pitches (map (fun p => (t, NoteOff 0 p)) ps) = [].
Proof.
  unfold Observe.on_pitches, Observe.off_pitches.
  induction ps as [|p ps [IH1 IH2]]; simpl; [now split|]. now rewrite IH1, IH2.
Qed.

(** One turn of the loop that returns, on a note or a chord. *)
Lemma stream_step_ok_inv fails bpm spq el w w' :
  VirtualOrgan.stream_step fails bpm spq el w = (Ok tt, w') ->
  (is_note el || is_chord el) = true ->
  started w' = started w ++ [(el, current_offset w)] /\
  sleeps w' = sleeps w ++ Observe.synth_sleeps bpm (el, current_offset w) /\
  now w' == now w + total (Observe.synth_sleeps bpm (el, current_offset w)) /\
  exists l, calls w' = calls w ++ l /\
            Observe.on_pitches l = Observe.pitches_of el /\
            Observe.off_pitches l = Observe.pitches_of el.
Proof.
  unfold VirtualOrgan.stream_step. intros E Hel.
  apply bind_inv_ok in E as (off & w1 & E1 & E).
  apply bind_inv_ok in E as ([] & w2 & E2 & E).
  apply bind_inv_ok in E as (off' & w3 & E3 & E4).
  inversion E1; subst off w1. inversion E3; subst off' w3. inversion E4; subst w'.
  clear E1 E3 E4. simpl.
  pose proof E2 as F. apply play_element_frame in F as [_ ->].
  apply play_element_ok_inv in E2 as (N & C & S & _); [|exact Hel].
  rewrite N, C, S. split; [reflexivity|]. split; [reflexivity|]. split.
  - unfold Observe.synth_sleeps, total. simpl. ring.
  - eexists. split; [reflexivity|].
    rewrite on_pitches_app, off_pitches_app.
    destruct (pitches_of_ons (now w + current_offset w) (Observe.pitches_of el))
      as [-> ->].
    destruct (pitches_of_offs
                (now w + current_offset w + quarterLength el * (60 / bpm))
                (Observe.pitches_of el)) as [-> ->].
    now rewrite app_nil_r.
Qed.

Lemma stream_loop_ok_inv fails bpm spq els : forall w w',
  VirtualOrgan.stream_loop fails bpm spq els w = (Ok tt, w') ->
  Forall (fun el => (is_note el || is_chord el) = true) els ->
  exists sched l,
    started w' = started w ++ sched /\ map fst sched = els /\
    sleeps w' = sleeps w ++ flat_map (Observe.synth_sleeps bpm) sched /\
    now w' == now w + total (flat_map (Observe.synth_sleeps bpm) sched) /\
    calls w' = calls w ++ l /\
    Observe.on_pitches l = flat_map Observe.pitches_of els /\
    Observe.off_pitches l = flat_map Observe.pitches_of els.
Proof.
  unfold VirtualOrgan.stream_loop.
  induction els as [|el els IH]; intros w w' E Hall.
  - inversion E; subst. exists [], []. simpl. rewrite !app_nil_r.
    repeat split; try reflexivity. unfold total. simpl. ring.
  - simpl in E. apply bind_inv_ok in E as ([] & w1 & E1 & E2).
    inversion Hall as [|? ? Hel Hels]; subst.
    apply stream_step_ok_inv in E1 as (S1 & P1 & N1 & l1 & C1 & On1 & Off1);
      [|exact Hel].
    apply IH in E2 as (sched & l2 & S2 & M2 & P2 & N2 & C2 & On2 & Off2);
      [|exact Hels].
    exists ((el, current_offset w) :: sched), (l1 ++ l2).
    rewrite S2, S1, P2, P1, C2, C1, <- !app_assoc. simpl.
    rewrite on_pitches_app, off_pitches_app, On1, On2, Off1, Off2, M2.
    repeat split; try reflexivity.
    rewrite N2, N1. unfold Observe.synth_sleeps, total. simpl. ring.
Qed.

(** X8.  A run of the virtual organ that ends without an exception sleeps
    twice per note or chord: first the whole start offset of the element,
    then its duration.  The wall time of the run is therefore the sum of the
    durations plus the sum of the start offsets. *)
Theorem X8_virtual_organ_waits_offsets_again
    (fails : nat -> bool) (TEMPO_BPM : option Q) (sc : score) (w w' : world) :
  VirtualOrgan.playback fails TEMPO_BPM sc w = (Ok tt, w') ->
  let bpm := VirtualOrgan.resolve_bpm TEMPO_BPM sc in
  exists sched,
    started w' = started w ++ sched /\
    map fst sched = getElementsByClass_Note_Chord (flat sc) /\
    sleeps w' = sleeps w ++ flat_map (Observe.synth_sleeps bpm) sched /\
    now w' == now w + total (map snd sched)
                    + Spec.seconds (60 / bpm) (map fst sched).
Proof.
  intros E bpm. unfold VirtualOrgan.playback in E.
  apply bind_inv_ok in E as ([] & w1 & E1 & E).
  apply bind_inv_ok in E as (spq & w2 & E2 & E).
  inversion E1; subst w1. unfold lift in E2. inversion E2; subst w2.
  apply stream_loop_ok_inv in E as (sched & l & S & M & P & N & _);
    [|apply filter_note_chord].
  simpl in S, P, N. exists sched. split; [exact S|]. split; [exact M|].
  split; [exact P|]. rewrite N. fold bpm.
  assert (H : total (flat_map (Observe.synth_sleeps bpm) sched)
              == total (map snd sched) + Spec.seconds (60 / bpm) (map fst sched)).
  { clear. induction sched as [|[el off] sched IH].
    - unfold total, Spec.seconds, total. simpl. ring.
    - simpl map. rewrite seconds_cons.
      change (flat_map (Observe.synth_sleeps bpm) ((el, off) :: sched))
        with (Observe.synth_sleeps bpm (el, off)
              ++ flat_map (Observe.synth_sleeps bpm) sched).
      rewrite total_app, IH. unfold Observe.synth_sleeps, total. simpl. ring. }
  rewrite H. ring.
Qed.

(** The scenario: sleeps of 0, 0.5, 0.5 and 0.5 s. *)
Lemma X8_virtual_organ_waits_offsets_again_witness :
  let run := VirtualOrgan.playback Sample.sound None Sample.scenario initial in
  exists sched,
    started (snd run) = started initial ++ sched /\
    map fst sched = getElementsByClass_Note_Chord (flat Sample.scenario) /\
    sleeps (snd run) = sleeps initial ++ flat_map (Observe.synth_sleeps 120) sched /\
    now (snd run) == now initial + total (map snd sched)
                     + Spec.seconds (60 / 120) (map fst sched).
Proof.
  intros run.
  apply (@X8_virtual_organ_waits_offsets_again Sample.sound None Sample.scenario
           initial (snd run)).
  vm_compute. reflexivity.
Defined.

Lemma sleep_negative t w : t < 0 -> sleep t w = (Raise ValueError, w).
Proof.
  intros Ht. unfold sleep. destruct (Qle_bool 0 t) eqn:E; [|reflexivity].
  apply Qle_bool_true in E. lra.
Qed.

(** X9.  A note or chord whose duration in seconds is negative, the backend
    not raising: [play_element] turns every pitch on, then [time.sleep]
    raises [ValueError]; no pitch is turned off. *)
Theorem X9_negative_duration_leaves_pitches_on
    (fails : nat -> bool) (bpm : Q) (el : element) (time_offset : Q) (w : world) :
  (forall n, fails n = false) ->
  (is_note el || is_chord el) = true ->
  0 <= time_offset ->
  ~ bpm == 0 ->
  quarterLength el * (60 / bpm) < 0 ->
  exists w',
    VirtualOrgan.play_element fails bpm el time_offset w = (Raise ValueError, w') /\
    calls w' = calls w ++ map (fun p => ((now w + time_offset)%Q, NoteOn 0 p 127))
                              (Observe.pitches_of el) /\
    sleeps w' = sleeps w ++ [time_offset].
Proof.
  intros Hf Hel Hoff Hbpm Hneg. unfold VirtualOrgan.play_element.
  destruct el as [p v d | ps v d | d | d]; try discriminate; simpl in Hneg.
  - eexists. split.
    + erewrite bind_ok by reflexivity.
      erewrite bind_ok by (apply sleep_ok; exact Hoff).
      erewrite bind_ok by (apply issue_ok; exact Hf).
      erewrite bind_ok by (unfold lift; rewrite (truediv_ok 60 Hbpm); reflexivity).
      apply bind_raise. apply sleep_negative. exact Hneg.
    + simpl. split; reflexivity.
  - eexists. split.
    + erewrite bind_ok by reflexivity.
      erewrite bind_ok by (apply sleep_ok; exact Hoff).
      erewrite bind_ok by (apply for_each_issue_ok; exact Hf).
      erewrite bind_ok by (unfold lift; rewrite (truediv_ok 60 Hbpm); reflexivity).
      apply bind_raise. apply sleep_negative. exact Hneg.
    + simpl. split; reflexivity.
Qed.

Lemma X9_negative_duration_leaves_pitches_on_witness :
  exists w',
    VirtualOrgan.play_element Sample.sound 120 Sample.backwards 0 initial
      = (Raise ValueError, w') /\
    calls w' = calls initial ++ map (fun p => ((now initial + 0)%Q, NoteOn 0 p 127))
                                    (Observe.pitches_of Sample.backwards) /\
    sleeps w' = sleeps initial ++ [0].
Proof.
  apply (@X9_negative_duration_leaves_pitches_on Sample.sound 120
           Sample.backwards 0 initial).
  - reflexivity.
  - reflexivity.
  - vm_compute. discriminate.
  - vm_compute. discriminate.
  - vm_compute. reflexivity.
Defined.

(** X10.  In a run of the virtual organ that ends without an exception,
    the pitches turned on are, in order, the pitches of the notes and chords
    of the score in score order, and the pitches turned off are the same, in
    the same order. *)
Theorem X10_virtual_organ_plays_in_score_order
    (fails : nat -> bool) (TEMPO_BPM : option Q) (sc : score) (w w' : world) :
  VirtualOrgan.playback fails TEMPO_BPM sc w = (Ok tt, w') ->
  exists l,
    calls w' = calls w ++ l /\
    Observe.on_pitches l =
      flat_map Observe.pitches_of (getElementsByClass_Note_Chord (flat sc)) /\
    Observe.off_pitches l = Observe.on_pitches l.
Proof.
  intros E. unfold VirtualOrgan.playback in E.
  apply bind_inv_ok in E as ([] & w1 & E1 & E).
  apply bind_inv_ok in E as (spq & w2 & E2 & E).
  inversion E1; subst w1. unfold lift in E2. inversion E2; subst w2.
  apply stream_loop_ok_inv in E as (sched & l & _ & _ & _ & _ & C & On & Off);
    [|apply filter_note_chord].
  exists l. simpl in C. split; [exact C|]. split; [exact On | congruence].
Qed.

Lemma X10_virtual_organ_plays_in_score_order_witness :
  let run := VirtualOrgan.playback Sample.sound None Sample.scenario initial in
  exists l,
    calls (snd run) = calls initial ++ l /\
    Observe.on_pitches l =
      flat_map Observe.pitches_of (getElementsByClass_Note_Chord (flat Sample.scenario)) /\
    Observe.off_pitches l = Observe.on_pitches l.
Proof.
  intros run.
  apply (@X10_virtual_organ_plays_in_score_order Sample.sound None Sample.scenario
           initial (snd run)).
  vm_compute. reflexivity.
Defined.

Lemma play_element_calls fails bpm el off w r w' :
  VirtualOrgan.play_element fails bpm el off w = (r, w') ->
  Observe.adds_only Observe.synth_call w w'.
Proof.
  set (P := Observe.synth_call).
  assert (Hloop : forall (f : Z -> call) ps,
            (forall p, P (f p)) ->
            forall w r w', for_each ps (fun p => issue fails (f p)) w = (r, w') ->
                           Observe.adds_only P w w').
  { intros f ps Hf. apply (@for_each_preserves world Z (Observe.adds_only P)).
    - apply adds_only_refl.
    - apply adds_only_trans.
    - intros p w0 r0 w0' _. apply issue_adds_only. apply Hf. }
  assert (Hlift : forall A (x : result A) w r w',
            lift x w = (r, w') -> Observe.adds_only P w w').
  { intros A x w0 r0 w0' H. inversion H. apply adds_only_refl. }
  revert w r w'. unfold VirtualOrgan.play_element.
  apply bind_rel; [apply adds_only_trans | |].
  { intros w r w' H. inversion H; subst. exists []. split; [|constructor].
    unfold adds. simpl. now rewrite app_nil_r. }
  intros _. apply bind_rel; [apply adds_only_trans | apply sleep_adds_only |].
  intros _. destruct el as [p v d | ps v d | d | d].
  - apply bind_rel; [apply adds_only_trans | |].
    { intros w r w'. apply issue_adds_only. unfold P. simpl. auto. }
    intros _. apply bind_rel; [apply adds_only_trans | apply Hlift |].
    intros spq. apply bind_rel; [apply adds_only_trans | apply sleep_adds_only |].
    intros _ w r w'. apply issue_adds_only. unfold P. simpl. auto.
  - apply bind_rel; [apply adds_only_trans | |].
    { apply (Hloop (fun p => NoteOn 0 p 127)). intros p. unfold P. simpl. auto. }
    intros _. apply bind_rel; [apply adds_only_trans | apply Hlift |].
    intros spq. apply bind_rel; [apply adds_only_trans | apply sleep_adds_only |].
    intros _. apply (Hloop (fun p => NoteOff 0 p)). intros p. unfold P. simpl. auto.
  - intros w r w' H. inversion H. apply adds_only_refl.
  - intros w r w' H. inversion H. apply adds_only_refl.
Qed.

(** X11.  Whatever the score and however the run ends, every call of the
    virtual organ is on channel 0 and every note-on has velocity 127: the
    velocities written in the score are never used. *)
Theorem X11_virtual_organ_channel_and_velocity
    (fails : nat -> bool) (TEMPO_BPM : option Q) (sc : score)
    (w w' : world) (r : result unit) :
  VirtualOrgan.playback fails TEMPO_BPM sc w = (r, w') ->
  exists l,
    calls w' = calls w ++ l /\ Forall (fun tc => Observe.synth_call (snd tc)) l.
Proof.
  revert w r w'. unfold VirtualOrgan.playback.
  apply (@bind_rel world unit unit (Observe.adds_only Observe.synth_call)).
  - apply adds_only_trans.
  - intros w r w' H. inversion H; subst. exists []. split; [|constructor].
    unfold adds. simpl. now rewrite app_nil_r.
  - intros _. apply bind_rel.
    + apply adds_only_trans.
    + intros w r w' H. inversion H. apply adds_only_refl.
    + intros spq. unfold VirtualOrgan.stream_loop.
      apply (@for_each_preserves world element (Observe.adds_only Observe.synth_call)).
      * apply adds_only_refl.
      * apply adds_only_trans.
      * intros el w r w' _. unfold VirtualOrgan.stream_step.
        apply bind_rel; [apply adds_only_trans | |].
        { intros w0 r0 w0' H. inversion H. apply adds_only_refl. }
        intros off. apply bind_rel; [apply adds_only_trans | apply play_element_calls |].
        intros _. apply bind_rel; [apply adds_only_trans | |].
        { intros w0 r0 w0' H. inversion H. apply adds_only_refl. }
        intros off' w0 r0 w0' H. inversion H; subst. exists []. split; [|constructor].
        unfold adds. simpl. now rewrite app_nil_r.
Qed.

Lemma X11_virtual_organ_channel_and_velocity_witness :
  let run := VirtualOrgan.playback (Sample.breaks_at 4) None Sample.scenario initial in
  exists l,
    calls (snd run) = calls initial ++ l /\
    Forall (fun tc => Observe.synth_call (snd tc)) l.
Proof.
  intros run.
  apply (@X11_virtual_organ_channel_and_velocity (Sample.breaks_at 4) None
           Sample.scenario initial (snd run) (fst run)).
  vm_compute. reflexivity.
Defined.

(* ------------------------------------------------------------------ *)
(** ** The scripts as a whole: the device handle                       *)
(* ------------------------------------------------------------------ *)

Lemma on_backend_inv {A} (m : M Backend.world A) w r w' :
  Session.on_backend m w = (r, w') ->
  m (Session.sound w) = (r, Session.sound w') /\
  Session.device w' = Session.device w /\
  Session.selected w' = Session.selected w.
Proof.
  unfold Session.on_backend. destruct (m (Session.sound w)) as [r0 b].
  intros H; inversion H; subst. simpl. auto.
Qed.

(** X12.  The hardware script closes its MIDI port exactly when the
    playback loop ends without an exception.  When the port cannot be opened
    the script exits with status 1 and nothing has happened; when the score
    cannot be parsed it exits with status 1, nothing has been played and the
    port is left open. *)
Theorem X12_organ_script_closes_port_on_success_only
    (fails : nat -> bool) (cfg : Organ.config) (env : Session.organ_env)
    (w w' : Session.world) (r : result unit) :
  Session.device w = Session.Unopened ->
  Session.organ_script fails cfg env w = (r, w') ->
  (Session.device w' = Session.Released <-> r = Ok tt) /\
  (Session.port_available env = false -> r = Raise (SystemExit 1) /\ w' = w) /\
  (Session.port_available env = true -> Session.organ_parse env = None ->
   r = Raise (SystemExit 1) /\ Session.device w' = Session.Opened /\
   Session.sound w' = Session.sound w).
Proof.
  intros Hdev E. unfold Session.organ_script in E.
  destruct (Session.port_available env) eqn:Hport.
  2:{ cbv [bind raise] in E. inversion E; subst.
      split; [|split]; try discriminate.
      - rewrite Hdev. split; discriminate.
      - auto. }
  unfold bind at 1 in E. unfold Session.set_device at 1 in E.
  unfold bind at 1 in E. unfold Session.or_exit_1 in E.
  destruct (Session.organ_parse env) as [sc|] eqn:Hparse.
  2:{ cbv [raise] in E. inversion E; subst. simpl.
      split; [split; discriminate|]. split; [discriminate|]. auto. }
  unfold ret at 1 in E.
  apply bind_inv in E as [([] & w2 & E2 & E3) | (e & E2 & Hr)].
  - inversion E3; subst. simpl. split; [tauto|]. split; discriminate.
  - apply on_backend_inv in E2 as (_ & D & _). simpl in D. subst r.
    rewrite D. split; [split; discriminate|]. split; discriminate.
Qed.

Lemma X12_organ_script_closes_port_on_success_only_witness :
  let run := Session.organ_script Sample.sound Organ.default_config
               Cases.organ_ready Session.fresh in
  let cut := Session.organ_script (Sample.breaks_at 1) Organ.default_config
               Cases.organ_ready Session.fresh in
  fst run = Ok tt /\ Session.device (snd run) = Session.Released /\
  fst cut = Raise BackendError /\ Session.device (snd cut) <> Session.Released.
Proof.
  intros run cut.
  destruct (@X12_organ_script_closes_port_on_success_only Sample.sound
              Organ.default_config Cases.organ_ready Session.fresh (snd run) (fst run))
    as [[_ H1] _]; [reflexivity | vm_compute; reflexivity |].
  destruct (@X12_organ_script_closes_port_on_success_only (Sample.breaks_at 1)
              Organ.default_config Cases.organ_ready Session.fresh (snd cut) (fst cut))
    as [[H2 _] _]; [reflexivity | vm_compute; reflexivity |].
  split; [vm_compute; reflexivity|]. split; [apply H1; vm_compute; reflexivity|].
  split; [vm_compute; reflexivity|].
  intros H. apply H2 in H. vm_compute in H. discriminate.
Defined.

(** X13.  The virtual organ script deletes its synthesizer exactly when the
    playback loop ends without an exception.  When the sound font does not
    load ([sfload] returns -1) the script exits with status 1 before the
    score is parsed: no program is selected, nothing is played, and the
    synthesizer it created is not deleted. *)
Theorem X13_synth_script_deletes_synth_on_success_only
    (fails : nat -> bool) (ORGAN_PROGRAM : Z) (TEMPO_BPM : option Q)
    (env : Session.synth_env) (w w' : Session.world) (r : result unit) :
  Session.device w = Session.Unopened ->
  Session.synth_script fails ORGAN_PROGRAM TEMPO_BPM env w = (r, w') ->
  (Session.device w' = Session.Released <-> r = Ok tt) /\
  (Session.sfload env = (-1)%Z ->
   r = Raise (SystemExit 1) /\ Session.device w' = Session.Opened /\
   Session.sound w' = Session.sound w /\ Session.selected w' = Session.selected w) /\
  (r = Ok tt ->
   Session.selected w' = Some (Session.sfload env, ORGAN_PROGRAM)).
Proof.
  intros Hdev E. unfold Session.synth_script in E.
  unfold bind at 1 in E. unfold Session.or_exit_1 at 1 in E.
  unfold bind at 1 in E. unfold Session.set_device at 1 in E.
  unfold bind at 1 in E.
  destruct (Session.driver_starts env).
  2:{ cbv [raise] in E. inversion E; subst. simpl.
      split; [split; discriminate|]. split; [auto | discriminate]. }
  unfold ret at 1 in E. unfold bind at 1 in E.
  destruct (Z.eqb_spec (Session.sfload env) (-1)) as [Hsf|Hsf].
  { cbv [raise] in E. inversion E; subst. simpl.
    split; [split; discriminate|]. split; [auto | discriminate]. }
  unfold ret at 1 in E. unfold Session.program_select in E.
  unfold bind at 1 in E. unfold Session.or_exit_1 in E.
  destruct (Session.synth_parse env) as [sc|].
  2:{ cbv [raise] in E. inversion E; subst. simpl.
      split; [split; discriminate|]. split; [congruence | discriminate]. }
  unfold ret at 1 in E.
  apply bind_inv in E as [([] & w2 & E2 & E3) | (e & E2 & Hr)].
  - apply on_backend_inv in E2 as (_ & _ & Sel). simpl in Sel.
    inversion E3; subst. simpl. split; [tauto|]. split; [congruence|]. auto.
  - apply on_backend_inv in E2 as (_ & D & _). simpl in D. subst r.
    rewrite D. split; [split; discriminate|]. split; [congruence | discriminate].
Qed.

Lemma X13_synth_script_deletes_synth_on_success_only_witness :
  let run := Session.synth_script Sample.sound 1 None Cases.no_sound_font
               Session.fresh in
  fst run = Raise (SystemExit 1) /\
  Session.device (snd run) = Session.Opened /\
  Session.sound (snd run) = Session.sound Session.fresh /\
  Session.selected (snd run) = Session.selected Session.fresh.
Proof.
  intros run.
  destruct (@X13_synth_script_deletes_synth_on_success_only Sample.sound 1 None
              Cases.no_sound_font Session.fresh (snd run) (fst run))
    as (_ & H & _); [reflexivity | vm_compute; reflexivity |].
  apply H. reflexivity.
Defined.

(* ------------------------------------------------------------------ *)
(** ** The converter: answers, exit codes, and what gets written       *)
(* ------------------------------------------------------------------ *)

Lemma lower_char_y c :
  Str.lower_char c = "y"%char <-> c = "y"%char \/ c = "Y"%char.
Proof.
  split.
  - destruct c as [[] [] [] [] [] [] [] []]; vm_compute; intros H;
      try discriminate; auto.
  - intros [->| ->]; reflexivity.
Qed.

Lemma lower_empty s : Str.lower s = ""%string -> s = ""%string.
Proof. destruct s; [reflexivity | discriminate]. Qed.

(** The answers that [confirm.lower() != "y"] lets through. *)
Lemma lower_is_y s :
  Str.lower s = "y"%string <-> s = "y"%string \/ s = "Y"%string.
Proof.
  split.
  - destruct s as [|c s']; [discriminate|]. simpl. intros H. inversion H as [[Hc Hs]].
    apply lower_empty in Hs. subst s'. apply lower_char_y in Hc as [->| ->]; auto.
  - intros [->| ->]; reflexivity.
Qed.

Lemma converter_checks_pass parses write_fails args inp out w :
  Converter.input_xml args = Some inp ->
  Converter.output_midi args = Some out ->
  Converter.lookup inp w = Some Converter.RegularFile ->
  Converter.main parses write_fails args w =
  (taken <- Converter.exists_ out ;;
   (if taken
    then
      confirm <- Converter.input out ;;
      if String.eqb (Str.lower confirm) "y" then ret tt
      else Converter.print Converter.Aborted ;; raise (SystemExit 0)
    else ret tt) ;;
   Converter.try_except
     (Converter.musicxml_to_midi parses write_fails inp out (Converter.program args) ;;
      Converter.print (Converter.Success out))
     (fun exc => Converter.print (Converter.Failed exc) ;; raise (SystemExit 1))) w.
Proof.
  intros Hin Hout Hfile. unfold Converter.main. rewrite Hin, Hout.
  unfold bind at 1. unfold Converter.is_file. rewrite Hfile.
  unfold bind at 1. reflexivity.
Qed.

(** X14.  The output file exists and an answer is waiting on standard
    input.  Any answer but "y" and "Y" ends the run with exit status 0 after
    printing the prompt and "Aborted.": one line has been read, nothing is
    written and the disk is as it was.  With "y" or "Y" the run goes on to
    the conversion, which is the only thing that can still write. *)
Theorem X14_converter_answer_decides
    (parses write_fails : Converter.path -> bool)
    (args : Converter.arguments) (inp out : Converter.path)
    (answer : string) (rest : list string)
    (w w' : Converter.world) (r : result unit) :
  Converter.input_xml args = Some inp ->
  Converter.output_midi args = Some out ->
  Converter.lookup inp w = Some Converter.RegularFile ->
  Converter.lookup out w <> None ->
  Converter.stdin w = answer :: rest ->
  Converter.main parses write_fails args w = (r, w') ->
  (answer <> "y"%string -> answer <> "Y"%string ->
   r = Raise (SystemExit 0) /\
   w' = {| Converter.files := Converter.files w; Converter.stdin := rest;
           Converter.written := Converter.written w;
           Converter.stdout := Converter.stdout w
                               ++ [Converter.Prompt out; Converter.Aborted] |}) /\
  (answer = "y"%string \/ answer = "Y"%string ->
   (r, w') =
   Converter.try_except
     (Converter.musicxml_to_midi parses write_fails inp out (Converter.program args) ;;
      Converter.print (Converter.Success out))
     (fun exc => Converter.print (Converter.Failed exc) ;; raise (SystemExit 1))
     {| Converter.files := Converter.files w; Converter.stdin := rest;
        Converter.written := Converter.written w;
        Converter.stdout := Converter.stdout w ++ [Converter.Prompt out] |}).
Proof.
  intros Hin Hout Hfile Hex Hs E.
  rewrite (@converter_checks_pass parses write_fails args inp out w Hin Hout Hfile) in E.
  unfold bind at 1 in E. unfold Converter.exists_ in E.
  destruct (Converter.lookup out w) as [k|] eqn:Ek; [|congruence].
  unfold bind at 1 in E. unfold bind at 1 in E. unfold Converter.input at 1 in E.
  rewrite Hs in E.
  destruct (String.eqb (Str.lower answer) "y") eqn:Ey.
  - apply String.eqb_eq in Ey. apply lower_is_y in Ey. split.
    + intros H1 H2. destruct Ey; contradiction.
    + intros _. unfold ret at 1 in E. now rewrite E.
  - split.
    + intros _ _. cbv [bind Converter.print raise] in E. simpl in E.
      inversion E. split; [reflexivity|]. now rewrite <- app_assoc.
    + intros Hy. apply lower_is_y in Hy. apply String.eqb_eq in Hy. congruence.
Qed.

Lemma X14_converter_answer_decides_witness :
  let no := Converter.main (fun _ => true) (fun _ => false)
              Sample.convert_hymn (Sample.at_prompt ["yes"; "y"]%string) in
  fst no = Raise (SystemExit 0) /\
  snd no = {| Converter.files := Sample.disk; Converter.stdin := ["y"%string];
              Converter.written := [];
              Converter.stdout := [] ++ [Converter.Prompt "hymn.mid"%string;
                                         Converter.Aborted] |}.
Proof.
  intros no.
  destruct (@X14_converter_answer_decides (fun _ => true) (fun _ => false)
              Sample.convert_hymn "hymn.xml"%string "hymn.mid"%string
              "yes"%string ["y"%string]
              (Sample.at_prompt ["yes"; "y"]%string) (snd no) (fst no))
    as [H _]; try (vm_compute; reflexivity); try (vm_compute; discriminate).
  apply H; discriminate.
Defined.

Lemma lookup_head p k fs i wr o :
  Converter.lookup p {| Converter.files := (p, k) :: fs; Converter.stdin := i;
                        Converter.written := wr; Converter.stdout := o |} = Some k.
Proof. unfold Converter.lookup. simpl. now rewrite String.eqb_refl. Qed.

(** X15.  A conversion to a path that does not exist yet asks nothing:
    when the input file is there and parses, the program (if given) is in
    0..127 and the write succeeds, [main] returns normally without reading
    standard input or printing a prompt, has written the output path once,
    and the output file exists afterwards. *)
Theorem X15_converter_fresh_output
    (parses write_fails : Converter.path -> bool)
    (args : Converter.arguments) (inp out : Converter.path) (w : Converter.world) :
  Converter.input_xml args = Some inp ->
  Converter.output_midi args = Some out ->
  Converter.lookup inp w = Some Converter.RegularFile ->
  Converter.lookup out w = None ->
  parses inp = true ->
  match Converter.program args with
  | Some n => (0 <= n <= 127)%Z
  | None => True
  end ->
  write_fails out = false ->
  let w' := {| Converter.files := (out, Converter.RegularFile) :: Converter.files w;
               Converter.stdin := Converter.stdin w;
               Converter.written := Converter.written w ++ [out];
               Converter.stdout := Converter.stdout w ++ [Converter.Success out] |} in
  Converter.main parses write_fails args w = (Ok tt, w') /\
  Converter.lookup out w' = Some Converter.RegularFile.
Proof.
  intros Hin Hout Hfile Hnew Hparse Hprog Hwrite w'.
  split; [|apply lookup_head].
  rewrite (@converter_checks_pass parses write_fails args inp out w Hin Hout Hfile).
  unfold bind at 1. unfold Converter.exists_. rewrite Hnew.
  unfold bind at 1. unfold ret at 1.
  unfold Converter.try_except, Converter.musicxml_to_midi.
  rewrite Hparse.
  assert (Hp : match Converter.program args with
               | Some n => if (0 <=? n)%Z && (n <=? 127)%Z
                           then @ret Converter.world unit tt else raise ValueError
               | None => ret tt
               end = ret tt).
  { destruct (Converter.program args) as [n|]; [|reflexivity].
    destruct (Z.leb_spec 0 n), (Z.leb_spec n 127); simpl; try reflexivity; lia. }
  rewrite Hp. unfold bind, ret, Converter.try_except, Converter.score_write.
  rewrite Hwrite. reflexivity.
Qed.

Lemma X15_converter_fresh_output_witness :
  let w := Sample.at_prompt [] in
  let w' := {| Converter.files := ("new.mid"%string, Converter.RegularFile)
                                  :: Converter.files w;
               Converter.stdin := Converter.stdin w;
               Converter.written := Converter.written w ++ ["new.mid"%string];
               Converter.stdout := Converter.stdout w
                                   ++ [Converter.Success "new.mid"%string] |} in
  Converter.main (fun _ => true) (fun _ => false)
    (Sample.convert_fresh (Some 19%Z)) w = (Ok tt, w') /\
  Converter.lookup "new.mid"%string w' = Some Converter.RegularFile.
Proof.
  apply (@X15_converter_fresh_output (fun _ => true) (fun _ => false)
           (Sample.convert_fresh (Some 19%Z)) "hymn.xml"%string "new.mid"%string
           (Sample.at_prompt [])); try reflexivity.
  simpl. lia.
Defined.

(** X16.  What ends a conversion early.  An input path that is not a
    regular file ends the run with exit status 2 before anything else: no
    prompt even when the output exists.  With a fresh output path, an input
    that does not parse, or else a program outside 0..127, ends the run with
    exit status 1 after printing the failure; in all three cases nothing is
    written and the disk is as it was.  The program is checked only once the
    input has parsed. *)
Theorem X16_converter_early_exits
    (parses write_fails : Converter.path -> bool)
    (args : Converter.arguments) (inp out : Converter.path) (w : Converter.world) :
  Converter.input_xml args = Some inp ->
  Converter.output_midi args = Some out ->
  (Converter.lookup inp w <> Some Converter.RegularFile ->
   Converter.main parses write_fails args w = (Raise (SystemExit 2), w)) /\
  (Converter.lookup inp w = Some Converter.RegularFile ->
   Converter.lookup out w = None ->
   let failed e :=
     (Raise (SystemExit 1),
      {| Converter.files := Converter.files w; Converter.stdin := Converter.stdin w;
         Converter.written := Converter.written w;
         Converter.stdout := Converter.stdout w ++ [Converter.Failed e] |}) in
   (parses inp = false ->
    Converter.main parses write_fails args w = failed RuntimeError) /\
   (parses inp = true ->
    forall n, Converter.program args = Some n -> ~ (0 <= n <= 127)%Z ->
    Converter.main parses write_fails args w = failed ValueError)).
Proof.
  intros Hin Hout. split.
  - intros Hfile. unfold Converter.main. rewrite Hin, Hout.
    unfold bind at 1. unfold Converter.is_file.
    destruct (Converter.lookup inp w) as [[|]|]; try reflexivity. congruence.
  - intros Hfile Hnew failed.
    rewrite (@converter_checks_pass parses write_fails args inp out w Hin Hout Hfile).
    split.
    + intros Hparse.
      unfold bind at 1. unfold Converter.exists_. rewrite Hnew.
      unfold bind at 1. unfold ret at 1.
      unfold Converter.try_except, Converter.musicxml_to_midi.
      rewrite Hparse. reflexivity.
    + intros Hparse n Hn Hrange.
      unfold bind at 1. unfold Converter.exists_. rewrite Hnew.
      unfold bind at 1. unfold ret at 1.
      unfold Converter.try_except, Converter.musicxml_to_midi.
      rewrite Hparse, Hn.
      assert (Hb : (0 <=? n)%Z && (n <=? 127)%Z = false).
      { destruct (Z.leb_spec 0 n), (Z.leb_spec n 127); simpl; try reflexivity; lia. }
      rewrite Hb. reflexivity.
Qed.

Lemma X16_converter_early_exits_witness :
  Converter.main (fun _ => true) (fun _ => false)
    (Sample.convert_fresh (Some 128%Z)) (Sample.at_prompt []) =
  (Raise (SystemExit 1),
   {| Converter.files := Sample.disk; Converter.stdin := [];
      Converter.written := [];
      Converter.stdout := [] ++ [Converter.Failed ValueError] |}).
Proof.
  pose proof (proj2 (@X16_converter_early_exits (fun _ => true) (fun _ => false)
                       (Sample.convert_fresh (Some 128%Z))
                       "hymn.xml"%string "new.mid"%string
                       (Sample.at_prompt []) eq_refl eq_refl)) as H.
  apply (proj2 (H eq_refl eq_refl) eq_refl 128%Z); [reflexivity | lia].
Defined.

(* ------------------------------------------------------------------ *)
(** ** The scraper: one hymn, step by step                             *)
(* ------------------------------------------------------------------ *)

Lemma Qlt_bool_iff a b : Qlt_bool a b = true <-> a < b.
Proof.
  unfold Qlt_bool. rewrite negb_true_iff. split.
  - intros H. apply Qnot_le_lt. intros Hle. apply Qle_bool_iff in Hle. congruence.
  - intros H. destruct (Qle_bool b a) eqn:E; [|reflexivity].
    apply Qle_bool_iff in E. lra.
Qed.

Lemma safe_sleep_eq last w :
  Scraper.safe_sleep last w = (Ok tt, Observe.after_delay last w).
Proof.
  unfold Scraper.safe_sleep, Observe.after_delay, bind, Scraper.time_time.
  destruct (Qlt_bool (Scraper.clock w - last) Scraper.MIN_DELAY) eqn:E; [|reflexivity].
  apply Qlt_bool_iff in E. unfold Scraper.time_sleep.
  rewrite Qle_bool_of_le by lra. reflexivity.
Qed.

Lemma after_delay_clock last w :
  last + Scraper.MIN_DELAY <= Scraper.clock (Observe.after_delay last w) /\
  Scraper.clock w <= Scraper.clock (Observe.after_delay last w) /\
  Scraper.requests (Observe.after_delay last w) = Scraper.requests w /\
  Scraper.saved (Observe.after_delay last w) = Scraper.saved w /\
  Scraper.journal (Observe.after_delay last w) = Scraper.journal w.
Proof.
  unfold Observe.after_delay.
  destruct (Qlt_bool (Scraper.clock w - last) Scraper.MIN_DELAY) eqn:E; simpl.
  - apply Qlt_bool_iff in E. repeat split; lra.
  - assert (~ Scraper.clock w - last < Scraper.MIN_DELAY).
    { intros H. apply Qlt_bool_iff in H. congruence. }
    repeat split; lra.
Qed.

(** X17.  [safe_sleep] never raises: it never asks [time.sleep] for a
    negative length.  When it returns at least [MIN_DELAY] seconds have
    passed since the time it was given, the clock has not gone back, and it
    has not slept at all if the delay had already passed. *)
Theorem X17_safe_sleep_waits_out_the_delay (previous_time : Q) (w : Scraper.world) :
  exists w',
    Scraper.safe_sleep previous_time w = (Ok tt, w') /\
    previous_time + Scraper.MIN_DELAY <= Scraper.clock w' /\
    Scraper.clock w <= Scraper.clock w' /\
    Scraper.requests w' = Scraper.requests w /\
    Scraper.saved w' = Scraper.saved w /\
    Scraper.journal w' = Scraper.journal w /\
    (previous_time + Scraper.MIN_DELAY <= Scraper.clock w -> w' = w) /\
    (Scraper.clock w < previous_time + Scraper.MIN_DELAY ->
     Scraper.clock w' == previous_time + Scraper.MIN_DELAY).
Proof.
  exists (Observe.after_delay previous_time w).
  split; [apply safe_sleep_eq|].
  destruct (after_delay_clock previous_time w) as (H1 & H2 & H3 & H4 & H5).
  repeat (split; [assumption|]). unfold Observe.after_delay. split.
  - intros H.
    destruct (Qlt_bool (Scraper.clock w - previous_time) Scraper.MIN_DELAY) eqn:E;
      [|reflexivity].
    apply Qlt_bool_iff in E. lra.
  - intros H.
    destruct (Qlt_bool (Scraper.clock w - previous_time) Scraper.MIN_DELAY) eqn:E.
    + simpl. ring.
    + assert (Hlt : Scraper.clock w - previous_time < Scraper.MIN_DELAY) by lra.
      apply Qlt_bool_iff in Hlt. congruence.
Qed.

Lemma X17_safe_sleep_waits_out_the_delay_witness :
  exists w',
    Scraper.safe_sleep 43199 Sample.at_noon = (Ok tt, w') /\
    Scraper.clock w' == 43199 + Scraper.MIN_DELAY.
Proof.
  destruct (X17_safe_sleep_waits_out_the_delay 43199 Sample.at_noon)
    as (w' & E & _ & _ & _ & _ & _ & _ & H).
  exists w'. split; [exact E|]. apply H. vm_compute. reflexivity.
Defined.

(** One turn of the loop, case by case. *)
Lemma process_hymn_eq server latency urljoin last hymn w :
  let w1 := Observe.after_delay last w in
  let t := Scraper.clock w1 in
  let url := Scraper.build_score_page_url hymn in
  let w2 := Observe.sent latency url w1 in
  Scraper.process_hymn server latency urljoin last hymn w =
  match server url with
  | Scraper.Unreachable => (Raise ConnectionError, w2)
  | Scraper.ErrorStatus => (Ok t, Observe.logged (Scraper.Warning hymn) w2)
  | Scraper.Page hrefs =>
      match Scraper.find_pdf_link urljoin hrefs with
      | None | Some EmptyString => (Ok t, Observe.logged (Scraper.Warning hymn) w2)
      | Some pdf_link =>
          let w3 := Observe.sent latency pdf_link w2 in
          let dest := Observe.dest_file hymn in
          match server pdf_link with
          | Scraper.Unreachable => (Raise ConnectionError, w3)
          | Scraper.ErrorStatus =>
              (Ok t, Observe.logged (Scraper.DownloadFailed hymn) w3)
          | Scraper.Page _ =>
              (Ok t, Observe.logged (Scraper.Downloaded dest) (Observe.wrote dest w3))
          end
      end
  end.
Proof.
  intros w1 t url w2. unfold Scraper.process_hymn.
  erewrite bind_ok by apply safe_sleep_eq. fold w1.
  erewrite bind_ok by reflexivity. fold t. fold url.
  unfold bind at 1. unfold Scraper.except_HTTPError at 1.
  unfold bind at 1. unfold Scraper.fetch.
  unfold bind at 1. unfold Scraper.session_get at 1.
  destruct (server url) as [hrefs| |] eqn:Eu; simpl; try reflexivity.
  destruct (Scraper.find_pdf_link urljoin hrefs) as [[|c l]|] eqn:El; try reflexivity.
  unfold bind at 1. unfold Scraper.except_HTTPError.
  unfold bind at 1. unfold Scraper.download_pdf.
  unfold bind at 1. unfold Scraper.session_get.
  destruct (server (String c l)) as [body| |] eqn:Ep; simpl; reflexivity.
Qed.

(** Every turn sends the page request, after the delay. *)
Lemma process_hymn_fetch server latency urljoin last hymn w r w' :
  Scraper.process_hymn server latency urljoin last hymn w = (r, w') ->
  exists t later,
    Scraper.requests w' =
      Scraper.requests w ++ (t, Scraper.build_score_page_url hymn) :: later /\
    last + Scraper.MIN_DELAY <= t /\
    Scraper.clock w <= t /\
    (forall t', r = Ok t' -> t' = t).
Proof.
  rewrite process_hymn_eq.
  destruct (after_delay_clock last w) as (H1 & H2 & H3 & _).
  set (w1 := Observe.after_delay last w) in *.
  intros E. exists (Scraper.clock w1).
  destruct (server (Scraper.build_score_page_url hymn)) as [hrefs| |].
  - destruct (Scraper.find_pdf_link urljoin hrefs) as [[|c l]|].
    + inversion E; subst. exists []. simpl. rewrite H3.
      repeat split; auto. congruence.
    + destruct (server (String c l)); inversion E; subst;
        exists [(Scraper.clock (Observe.sent latency
                   (Scraper.build_score_page_url hymn) w1), String c l)];
        simpl; rewrite H3, <- app_assoc; repeat split; auto; congruence.
    + inversion E; subst. exists []. simpl. rewrite H3.
      repeat split; auto. congruence.
  - inversion E; subst. exists []. simpl. rewrite H3. repeat split; auto. congruence.
  - inversion E; subst. exists []. simpl. rewrite H3. repeat split; auto. discriminate.
Qed.

(** X18.  Two consecutive turns of the scraper's loop: the page of the
    second hymn is requested at least [MIN_DELAY] seconds after the page of
    the first was, however long the requests of the first turn took and
    however the second turn ends. *)
Theorem X18_page_fetches_are_spaced
    (server : string -> Scraper.answer) (latency : string -> Q)
    (urljoin : string -> string -> string)
    (last t1 : Q) (hymn1 hymn2 : string) (w w1 w2 : Scraper.world) (r : result Q) :
  Scraper.process_hymn server latency urljoin last hymn1 w = (Ok t1, w1) ->
  Scraper.process_hymn server latency urljoin t1 hymn2 w1 = (r, w2) ->
  exists later1 t2 later2,
    Scraper.requests w1 =
      Scraper.requests w ++ (t1, Scraper.build_score_page_url hymn1) :: later1 /\
    Scraper.requests w2 =
      Scraper.requests w1 ++ (t2, Scraper.build_score_page_url hymn2) :: later2 /\
    t1 + Scraper.MIN_DELAY <= t2.
Proof.
  intros E1 E2.
  apply process_hymn_fetch in E1 as (t & later1 & R1 & _ & _ & Ht).
  apply process_hymn_fetch in E2 as (t2 & later2 & R2 & Hd & _ & _).
  rewrite <- (Ht t1 eq_refl) in R1.
  exists later1, t2, later2. auto.
Qed.

Lemma X18_page_fetches_are_spaced_witness :
  let one := Scraper.process_hymn Sample.imslp Sample.fifth_of_a_second
               Sample.join_urls 0 "Amazing Grace" Sample.at_noon in
  let two := Scraper.process_hymn Sample.imslp Sample.fifth_of_a_second
               Sample.join_urls 43200 "Rock Of Ages" (snd one) in
  exists later1 t2 later2,
    Scraper.requests (snd one) =
      Scraper.requests Sample.at_noon
      ++ (43200, Scraper.build_score_page_url "Amazing Grace") :: later1 /\
    Scraper.requests (snd two) =
      Scraper.requests (snd one)
      ++ (t2, Scraper.build_score_page_url "Rock Of Ages") :: later2 /\
    43200 + Scraper.MIN_DELAY <= t2.
Proof.
  intros one two.
  apply (@X18_page_fetches_are_spaced Sample.imslp Sample.fifth_of_a_second
           Sample.join_urls 0 43200 "Amazing Grace" "Rock Of Ages"
           Sample.at_noon (snd one) (snd two) (fst two)).
  - vm_compute. reflexivity.
  - vm_compute. reflexivity.
Defined.

Lemma process_all_extends server latency urljoin hymns : forall last w r w',
  Scraper.process_all server latency urljoin last hymns w = (r, w') ->
  exists l, Scraper.requests w' = Scraper.requests w ++ l.
Proof.
  induction hymns as [|h hs IH]; intros last w r w' E; simpl in E.
  - inversion E; subst. exists []. now rewrite app_nil_r.
  - apply bind_inv in E as [(t & w1 & E1 & E2) | (e & E1 & _)].
    + apply process_hymn_fetch in E1 as (t0 & later & R1 & _).
      apply IH in E2 as (l & R2).
      eexists. rewrite R2, R1, <- app_assoc. reflexivity.
    + apply process_hymn_fetch in E1 as (t0 & later & R1 & _). eauto.
Qed.

Lemma after_delay_first w :
  Observe.after_delay (Scraper.clock w - Scraper.MIN_DELAY) w = w.
Proof.
  unfold Observe.after_delay.
  destruct (Qlt_bool _ _) eqn:E; [|reflexivity].
  apply Qlt_bool_iff in E. lra.
Qed.

(** X19.  The first request of a run is sent at once: with at least one
    hymn to process, [main] sends the request for the first hymn's page at
    the very time it starts, without sleeping, whatever happens later. *)
Theorem X19_first_request_goes_straight_through
    (server : string -> Scraper.answer) (latency : string -> Q)
    (urljoin : string -> string -> string)
    (hymn : string) (hymns : list string) (w w' : Scraper.world) (r : result unit) :
  Scraper.main server latency urljoin (hymn :: hymns) w = (r, w') ->
  exists later,
    Scraper.requests w' =
      Scraper.requests w
      ++ (Scraper.clock w, Scraper.build_score_page_url hymn) :: later.
Proof.
  unfold Scraper.main. intros E.
  erewrite bind_ok in E by reflexivity. simpl in E.
  apply bind_inv in E as [(t & w1 & E1 & E2) | (e & E1 & _)].
  - apply process_all_extends in E2 as (l & R2).
    rewrite process_hymn_eq, after_delay_first in E1.
    assert (R1 : exists l1, Scraper.requests w1 =
              Scraper.requests w
              ++ (Scraper.clock w, Scraper.build_score_page_url hymn) :: l1).
    { destruct (server (Scraper.build_score_page_url hymn)) as [hrefs| |].
      - destruct (Scraper.find_pdf_link urljoin hrefs) as [[|c l0]|].
        + inversion E1; subst. exists []. reflexivity.
        + destruct (server (String c l0)); inversion E1; subst; simpl;
            rewrite <- app_assoc; eexists; reflexivity.
        + inversion E1; subst. exists []. reflexivity.
      - inversion E1; subst. exists []. reflexivity.
      - discriminate. }
    destruct R1 as (l1 & R1). eexists. rewrite R2, R1, <- app_assoc. reflexivity.
  - rewrite process_hymn_eq, after_delay_first in E1.
    destruct (server (Scraper.build_score_page_url hymn)) as [hrefs| |].
    + destruct (Scraper.find_pdf_link urljoin hrefs) as [[|c l0]|].
      * discriminate.
      * destruct (server (String c l0)); inversion E1; subst; simpl;
          rewrite <- app_assoc; eexists; reflexivity.
      * discriminate.
    + discriminate.
    + inversion E1; subst. exists []. reflexivity.
Qed.

Lemma X19_first_request_goes_straight_through_witness :
  let run := Scraper.main Sample.imslp Sample.fifth_of_a_second Sample.join_urls
               [ "Amazing Grace"; "Rock Of Ages" ]%string Sample.at_noon in
  exists later,
    Scraper.requests (snd run) =
      Scraper.requests Sample.at_noon
      ++ (Scraper.clock Sample.at_noon,
          Scraper.build_score_page_url "Amazing Grace") :: later.
Proof.
  intros run.
  apply (@X19_first_request_goes_straight_through Sample.imslp
           Sample.fifth_of_a_second Sample.join_urls
           "Amazing Grace" ["Rock Of Ages"%string] Sample.at_noon (snd run) (fst run)).
  vm_compute. reflexivity.
Defined.

(* ------------------------------------------------------------------ *)
(** ** The scraper: errors, links and files                            *)
(* ------------------------------------------------------------------ *)

Lemma process_hymn_reachable server latency urljoin last hymn w :
  (forall url, server url <> Scraper.Unreachable) ->
  exists t w',
    Scraper.process_hymn server latency urljoin last hymn w = (Ok t, w').
Proof.
  intros Hs. rewrite process_hymn_eq.
  destruct (server (Scraper.build_score_page_url hymn)) as [hrefs| |] eqn:E1.
  - destruct (Scraper.find_pdf_link urljoin hrefs) as [[|c l]|]; eauto.
    destruct (server (String c l)) eqn:E2; eauto. exfalso. eapply Hs; eassumption.
  - eauto.
  - exfalso. eapply Hs; eassumption.
Qed.

Lemma process_all_reachable server latency urljoin hymns :
  (forall url, server url <> Scraper.Unreachable) ->
  forall last w,
  exists w' l,
    Scraper.process_all server latency urljoin last hymns w = (Ok tt, w') /\
    Scraper.requests w' = Scraper.requests w ++ l /\
    forall h, In h hymns -> In (Scraper.build_score_page_url h) (map snd l).
Proof.
  intros Hs. induction hymns as [|h hs IH]; intros last w.
  - exists w, []. simpl. rewrite app_nil_r. repeat split. intros h [].
  - destruct (@process_hymn_reachable server latency urljoin last h w Hs) as (t & w1 & E1).
    destruct (IH t w1) as (w' & l2 & E2 & R2 & Hin).
    pose proof E1 as F. apply process_hymn_fetch in F as (t0 & later & R1 & _).
    exists w', (((t0, Scraper.build_score_page_url h) :: later) ++ l2). split.
    + simpl. erewrite bind_ok by exact E1. exact E2.
    + split; [rewrite R2, R1, <- app_assoc; reflexivity|].
      intros h' [<-|Hh'].
      * simpl. now left.
      * rewrite map_app. apply in_or_app. right. now apply Hin.
Qed.

(** X20.  Errors of single hymns do not stop the run.  As long as the
    server can be reached, whatever it answers (error statuses, pages
    without PDF link, failed downloads), [main] returns normally and has
    requested the page of every hymn of the list. *)
Theorem X20_scraper_continues_on_http_errors
    (server : string -> Scraper.answer) (latency : string -> Q)
    (urljoin : string -> string -> string)
    (hymns : list string) (w : Scraper.world) :
  (forall url, server url <> Scraper.Unreachable) ->
  exists w',
    Scraper.main server latency urljoin hymns w = (Ok tt, w') /\
    forall h, In h hymns ->
      In (Scraper.build_score_page_url h) (map snd (Scraper.requests w')).
Proof.
  intros Hs. unfold Scraper.main.
  destruct (@process_all_reachable server latency urljoin hymns Hs
              (Scraper.clock w - Scraper.MIN_DELAY) w) as (w' & l & E & R & Hin).
  exists w'. split.
  - erewrite bind_ok by reflexivity. exact E.
  - intros h Hh. rewrite R, map_app. apply in_or_app. right. now apply Hin.
Qed.

Lemma X20_scraper_continues_on_http_errors_witness :
  exists w',
    Scraper.main Sample.imslp_404 Sample.fifth_of_a_second Sample.join_urls
      Scraper.HYMNS Sample.at_noon = (Ok tt, w') /\
    forall h, In h Scraper.HYMNS ->
      In (Scraper.build_score_page_url h) (map snd (Scraper.requests w')).
Proof.
  apply (@X20_scraper_continues_on_http_errors Sample.imslp_404
           Sample.fifth_of_a_second Sample.join_urls Scraper.HYMNS Sample.at_noon).
  intros url. unfold Sample.imslp_404. discriminate.
Defined.

(** X21.  A server that cannot be reached stops the whole run: the
    [ConnectionError] of the first page request is not caught, [main] ends on
    it with that one request sent, nothing saved, nothing logged, and no
    later hymn is tried. *)
Theorem X21_scraper_stops_on_connection_error
    (server : string -> Scraper.answer) (latency : string -> Q)
    (urljoin : string -> string -> string)
    (hymn : string) (hymns : list string) (w : Scraper.world) :
  server (Scraper.build_score_page_url hymn) = Scraper.Unreachable ->
  Scraper.main server latency urljoin (hymn :: hymns) w =
  (Raise ConnectionError,
   {| Scraper.clock := (Scraper.clock w
                        + latency (Scraper.build_score_page_url hymn))%Q;
      Scraper.requests := Scraper.requests w
                          ++ [(Scraper.clock w, Scraper.build_score_page_url hymn)];
      Scraper.saved := Scraper.saved w;
      Scraper.journal := Scraper.journal w |}).
Proof.
  intros Hs. unfold Scraper.main.
  erewrite bind_ok by reflexivity. simpl.
  apply bind_raise. rewrite process_hymn_eq, after_delay_first, Hs. reflexivity.
Qed.

Lemma X21_scraper_stops_on_connection_error_witness :
  let run := Scraper.main Sample.imslp_down Sample.fifth_of_a_second Sample.join_urls
               [ "Rock Of Ages"; "Amazing Grace" ]%string Sample.at_noon in
  fst run = Raise ConnectionError /\
  map snd (Scraper.requests (snd run)) = [ "https://imslp.org/wiki/Rock_Of_Ages"%string ].
Proof.
  intros run. subst run.
  rewrite (@X21_scraper_stops_on_connection_error Sample.imslp_down
             Sample.fifth_of_a_second Sample.join_urls
             "Rock Of Ages" ["Amazing Grace"%string] Sample.at_noon).
  - split; reflexivity.
  - reflexivity.
Defined.

(** X22.  [find_pdf_link] takes the first link of the page that ends in
    ".pdf", in any mix of upper and lower case, made absolute against
    https://imslp.org; it returns [None] exactly when no link of the page
    ends so. *)
Theorem X22_find_pdf_link_takes_the_first
    (urljoin : string -> string -> string) (hrefs : list string) :
  match Scraper.find_pdf_link urljoin hrefs with
  | Some link =>
      exists before href after,
        hrefs = before ++ href :: after /\
        Forall (fun h => Observe.is_pdf h = false) before /\
        Observe.is_pdf href = true /\
        link = urljoin "https://imslp.org"%string href
  | None => Forall (fun h => Observe.is_pdf h = false) hrefs
  end.
Proof.
  induction hrefs as [|h hs IH]; simpl; [constructor|].
  destruct (Str.endswith (Str.lower h) ".pdf") eqn:E.
  - exists [], h, hs. repeat split; auto.
  - destruct (Scraper.find_pdf_link urljoin hs) as [link|].
    + destruct IH as (before & href & after & -> & Hb & Hp & ->).
      exists (h :: before), href, after. repeat split; auto.
    + constructor; assumption.
Qed.

Lemma all_chars_append f a b :
  Observe.all_chars f (a ++ b)%string = Observe.all_chars f a && Observe.all_chars f b.
Proof.
  induction a as [|c a IH]; simpl; [reflexivity|]. now rewrite IH, andb_assoc.
Qed.

Lemma isalnum_name s : Str.isalnum s = true -> Observe.all_chars Observe.name_char s = true.
Proof.
  unfold Str.isalnum. rewrite andb_true_iff. intros [_ H].
  induction s as [|c s IH]; simpl in *; [reflexivity|].
  apply andb_true_iff in H as [Hc Hs]. rewrite (IH Hs), andb_true_r.
  unfold Observe.name_char. now rewrite Hc.
Qed.

Lemma join_name parts :
  Forall (fun p => Observe.all_chars Observe.name_char p = true) parts ->
  Observe.all_chars Observe.name_char (Str.join "_" parts) = true.
Proof.
  induction 1 as [|p ps Hp Hps IH]; [reflexivity|].
  destruct ps as [|q qs]; [exact Hp|].
  change (Str.join "_" (p :: q :: qs))
    with (p ++ "_" ++ Str.join "_" (q :: qs))%string.
  now rewrite !all_chars_append, Hp, IH.
Qed.

(** The file a PDF is saved to: in [OUT_DIR], named with letters, digits
    and underscores only. *)
Lemma dest_file_shape hymn :
  exists name,
    Observe.dest_file hymn = ("lutheran_hymn_scores/" ++ name ++ ".pdf")%string /\
    Observe.all_chars Observe.name_char name = true.
Proof.
  exists (Str.join "_" (filter Str.isalnum (Str.split hymn))). split; [reflexivity|].
  apply join_name. apply Forall_forall. intros p Hp.
  apply filter_In in Hp as [_ Hp]. now apply isalnum_name.
Qed.

(** What one turn saves. *)
Lemma process_hymn_saves server latency urljoin last hymn w r w' :
  Scraper.process_hymn server latency urljoin last hymn w = (r, w') ->
  (Scraper.saved w' = Scraper.saved w /\
   forall dest, ~ In (Scraper.Downloaded dest)
                     (skipn (List.length (Scraper.journal w)) (Scraper.journal w')))
  \/
  (exists hrefs link body t,
     server (Scraper.build_score_page_url hymn) = Scraper.Page hrefs /\
     Scraper.find_pdf_link urljoin hrefs = Some link /\
     server link = Scraper.Page body /\
     r = Ok t /\
     Scraper.saved w' = Scraper.saved w ++ [Observe.dest_file hymn] /\
     Scraper.journal w' =
       Scraper.journal w ++ [Scraper.Downloaded (Observe.dest_file hymn)]).
Proof.
  rewrite process_hymn_eq.
  destruct (after_delay_clock last w) as (_ & _ & _ & H4 & H5).
  set (w1 := Observe.after_delay last w) in *.
  assert (Hskip : forall e, skipn (List.length (Scraper.journal w))
                              (Scraper.journal w ++ [e]) = [e]).
  { intros e. rewrite skipn_app, skipn_all, Nat.sub_diag. reflexivity. }
  assert (Hnone : skipn (List.length (Scraper.journal w)) (Scraper.journal w) = []).
  { apply skipn_all. }
  destruct (server (Scraper.build_score_page_url hymn)) as [hrefs| |] eqn:E1.
  - destruct (Scraper.find_pdf_link urljoin hrefs) as [[|c l]|] eqn:E2.
    + intros E; inversion E; subst. left. simpl. rewrite H4, H5, Hskip.
      split; [reflexivity|]. intros dest [H|[]]. discriminate.
    + destruct (server (String c l)) as [body| |] eqn:E3; intros E; inversion E; subst.
      * right. exists hrefs, (String c l), body, (Scraper.clock w1).
        simpl. rewrite H4, H5. repeat split; auto.
      * left. simpl. rewrite H4, H5, Hskip.
        split; [reflexivity|]. intros dest [H|[]]. discriminate.
      * left. simpl. rewrite H4, H5, Hnone. split; [reflexivity|]. intros dest [].
    + intros E; inversion E; subst. left. simpl. rewrite H4, H5, Hskip.
      split; [reflexivity|]. intros dest [H|[]]. discriminate.
  - intros E; inversion E; subst. left. simpl. rewrite H4, H5, Hskip.
    split; [reflexivity|]. intros dest [H|[]]. discriminate.
  - intros E; inversion E; subst. left. simpl. rewrite H4, H5, Hnone.
    split; [reflexivity|]. intros dest [].
Qed.

(** X23.  A turn of the scraper's loop saves a file only when the page of
    the hymn answered with a link to a PDF and the PDF itself answered
    without error status; it then saves exactly one file and logs the
    download.  In every other case nothing is saved and no download is
    logged. *)
Theorem X23_saved_only_after_two_good_answers
    (server : string -> Scraper.answer) (latency : string -> Q)
    (urljoin : string -> string -> string)
    (last : Q) (hymn : string) (w w' : Scraper.world) (r : result Q) :
  Scraper.process_hymn server latency urljoin last hymn w = (r, w') ->
  (Scraper.saved w' = Scraper.saved w /\
   forall dest, ~ In (Scraper.Downloaded dest)
                     (skipn (List.length (Scraper.journal w)) (Scraper.journal w')))
  \/
  (exists hrefs link body t,
     server (Scraper.build_score_page_url hymn) = Scraper.Page hrefs /\
     Scraper.find_pdf_link urljoin hrefs = Some link /\
     server link = Scraper.Page body /\
     r = Ok t /\
     Scraper.saved w' = Scraper.saved w ++ [Observe.dest_file hymn] /\
     Scraper.journal w' =
       Scraper.journal w ++ [Scraper.Downloaded (Observe.dest_file hymn)]).
Proof. apply process_hymn_saves. Qed.

Lemma X23_saved_only_after_two_good_answers_witness :
  let run := Scraper.process_hymn Sample.imslp_404 Sample.fifth_of_a_second
               Sample.join_urls 0 "Amazing Grace" Sample.at_noon in
  Scraper.saved (snd run) = Scraper.saved Sample.at_noon.
Proof.
  intros run.
  destruct (@X23_saved_only_after_two_good_answers Sample.imslp_404
              Sample.fifth_of_a_second Sample.join_urls 0 "Amazing Grace"
              Sample.at_noon (snd run) (fst run))
    as [[H _] | (hrefs & link & body & t & H & _)].
  - vm_compute. reflexivity.
  - exact H.
  - vm_compute in H. discriminate.
Defined.

Lemma process_all_saves server latency urljoin hymns : forall last w r w',
  Scraper.process_all server latency urljoin last hymns w = (r, w') ->
  exists l,
    Scraper.saved w' = Scraper.saved w ++ l /\
    Forall (fun p => exists h, In h hymns /\ p = Observe.dest_file h) l.
Proof.
  induction hymns as [|h hs IH]; intros last w r w' E; simpl in E.
  - inversion E; subst. exists []. rewrite app_nil_r. split; [reflexivity | constructor].
  - assert (Hstep : forall r1 w1,
              Scraper.process_hymn server latency urljoin last h w = (r1, w1) ->
              exists l1, Scraper.saved w1 = Scraper.saved w ++ l1 /\
                Forall (fun p => exists h', In h' (h :: hs) /\ p = Observe.dest_file h') l1).
    { intros r1 w1 E1. apply process_hymn_saves in E1
        as [[S _] | (_ & _ & _ & _ & _ & _ & _ & _ & S & _)].
      - exists []. rewrite app_nil_r. split; [exact S | constructor].
      - exists [Observe.dest_file h]. split; [exact S|].
        constructor; [|constructor]. exists h. split; [now left | reflexivity]. }
    apply bind_inv in E as [(t & w1 & E1 & E2) | (e & E1 & _)].
    + apply Hstep in E1 as (l1 & S1 & F1). apply IH in E2 as (l2 & S2 & F2).
      exists (l1 ++ l2). split; [rewrite S2, S1, <- app_assoc; reflexivity|].
      apply Forall_app. split; [exact F1|].
      eapply Forall_impl; [|exact F2]. intros p (h' & Hin & ->).
      exists h'. split; [now right | reflexivity].
    + apply Hstep in E1. exact E1.
Qed.

(** X24.  Whatever the server answers and however the run ends, every file
    [main] saves is the file of one of the hymns of its list, directly inside
    lutheran_hymn_scores, with a name made of letters, digits and underscores
    only and the extension .pdf: no hymn title and no link of a page can
    make the scraper write anywhere else. *)
Theorem X24_scraper_saves_inside_out_dir
    (server : string -> Scraper.answer) (latency : string -> Q)
    (urljoin : string -> string -> string)
    (hymns : list string) (w w' : Scraper.world) (r : result unit) :
  Scraper.main server latency urljoin hymns w = (r, w') ->
  exists l,
    Scraper.saved w' = Scraper.saved w ++ l /\
    Forall (fun p =>
              (exists h, In h hymns /\ p = Observe.dest_file h) /\
              exists name,
                p = ("lutheran_hymn_scores/" ++ name ++ ".pdf")%string /\
                Observe.all_chars Observe.name_char name = true) l.
Proof.
  unfold Scraper.main. intros E.
  erewrite bind_ok in E by reflexivity.
  apply process_all_saves in E as (l & S & F). exists l. split; [exact S|].
  eapply Forall_impl; [|exact F]. intros p (h & Hin & ->).
  split; [eauto | apply dest_file_shape].
Qed.

Lemma X24_scraper_saves_inside_out_dir_witness :
  let run := Scraper.main Sample.imslp Sample.fifth_of_a_second Sample.join_urls
               [ "Amazing Grace"; "Rock Of Ages" ]%string Sample.at_noon in
  exists l,
    Scraper.saved (snd run) = Scraper.saved Sample.at_noon ++ l /\
    Forall (fun p =>
              (exists h, In h [ "Amazing Grace"; "Rock Of Ages" ]%string
                         /\ p = Observe.dest_file h) /\
              exists name,
                p = ("lutheran_hymn_scores/" ++ name ++ ".pdf")%string /\
                Observe.all_chars Observe.name_char name = true) l.
Proof.
  intros run.
  apply (@X24_scraper_saves_inside_out_dir Sample.imslp Sample.fifth_of_a_second
           Sample.join_urls [ "Amazing Grace"; "Rock Of Ages" ]%string
           Sample.at_noon (snd run) (fst run)).
  vm_compute. reflexivity.
Defined.

(** X25.  The URL built for a title has no space in it, whatever the
    title. *)
Theorem X25_score_page_url_has_no_space (title : string) :
  Observe.all_chars (fun c => negb (Ascii.eqb c " ")) (Scraper.build_score_page_url title)
  = true.
Proof.
  unfold Scraper.build_score_page_url. rewrite all_chars_append.
  apply andb_true_iff. split; [reflexivity|].
  induction title as [|c s IH]; simpl; [reflexivity|].
  rewrite IH, andb_true_r.
  destruct (Ascii.eqb c " ") eqn:E; [reflexivity|]. now rewrite E.
Qed.
